(** * A model of the chat client's simulated backend (src/services/firebase.ts)

    The service keeps one JSON document, the table of rooms, under a single
    localStorage key.  [createRoom], [checkRoomExists] and [sendMessage] read
    the whole table, change it in memory and write it back;
    [subscribeToMessages] polls the table and hands the sorted messages of a
    room to a callback.

    The development follows the source closely:
    - JavaScript objects are property lists kept in JavaScript's own
      enumeration order (array-index keys first, ascending, then the other
      keys in insertion order);
    - a property read [rooms[roomId]] walks the prototype chain, so the names
      that every object inherits from [Object.prototype] are visible in it;
    - the effects (storage, the clock, alerts, console, callback calls, and the
      few properties the code can add to built-in objects) live in a [World]
      that is threaded through a small state-and-exception monad;
    - the artificial latency of the asynchronous functions is not modelled:
      each body runs to completion once resumed, as JavaScript runs it on its
      single thread;
    - the clock and the random number generator are inputs of the calls that
      consult them.

    One path of [sendMessage] sets a property on a message object that sits
    in [Object.prototype.messages]; what later reads make of such an object
    depends on the engine's sort, so the model stops there with the outcome
    [Unmodelled].  No statement below relies on what happens after it. *)

From Stdlib Require Import ZArith NArith List String Ascii Bool Lia.
From Stdlib Require Import Permutation Sorted.
Import ListNotations.

Local Open Scope string_scope.
Local Open Scope list_scope.

(** ** Objects as ordered property lists *)

Module Obj.

Section WithValues.
Context {V : Type}.

Definition t := list (string * V).

(** [o[k]] restricted to own properties. *)
Fixpoint own (k : string) (o : t) : option V :=
  match o with
  | [] => None
  | (k', v) :: rest => if String.eqb k k' then Some v else own k rest
  end.

Definition keys (o : t) : list string := map fst o.

(** [Object.values(o)]: the own values in enumeration order. *)
Definition values (o : t) : list V := map snd o.

Definition digit_of (c : ascii) : option N :=
  let n := N_of_ascii c in
  if ((48 <=? n) && (n <=? 57))%N then Some (n - 48)%N else None.

Fixpoint digits_value (acc : N) (s : string) : option N :=
  match s with
  | EmptyString => Some acc
  | String c s' =>
      match digit_of c with
      | Some d => digits_value (10 * acc + d)%N s'
      | None => None
      end
  end.

(** A key is an array index when it is the canonical decimal form of an
    integer below 2^32 - 1; such keys are enumerated first, in numeric
    order. *)
Definition array_index (k : string) : option N :=
  match k with
  | EmptyString => None
  | String c rest =>
      if andb (Ascii.eqb c "0"%char) (negb (String.eqb rest EmptyString))
      then None
      else match digits_value 0%N k with
           | Some n => if (n <? 4294967295)%N then Some n else None
           | None => None
           end
  end.

(** Overwrite the value of an existing own property, in place. *)
Fixpoint update (k : string) (v : V) (o : t) : t :=
  match o with
  | [] => []
  | (k', v') :: rest =>
      if String.eqb k k' then (k', v) :: rest else (k', v') :: update k v rest
  end.

(** Create an array-index property: it goes before the first property that
    is not an array index or has a larger index. *)
Fixpoint insert_index (i : N) (k : string) (v : V) (o : t) : t :=
  match o with
  | [] => [(k, v)]
  | (k', v') :: rest =>
      match array_index k' with
      | Some j => if (i <? j)%N then (k, v) :: o
                  else (k', v') :: insert_index i k v rest
      | None => (k, v) :: o
      end
  end.

(** The assignment [o[k] = v] on an ordinary object, for a key that no
    setter on the prototype chain intercepts. *)
Definition put (k : string) (v : V) (o : t) : t :=
  match own k o with
  | Some _ => update k v o
  | None =>
      match array_index k with
      | Some i => insert_index i k v o
      | None => o ++ [(k, v)]
      end
  end.

(** The order in which an object enumerates its keys: array indices first,
    ascending, then the other keys.  [lo] is the last index seen. *)
Fixpoint ordered_keys (lo : option N) (ks : list string) : bool :=
  match ks with
  | [] => true
  | k :: rest =>
      match array_index k with
      | Some i =>
          match lo with
          | Some j => (j <=? i)%N
          | None => true
          end && ordered_keys (Some i) rest
      | None =>
          forallb (fun k' => match array_index k' with
                             | Some _ => false
                             | None => true
                             end) rest
      end
  end.

(** A property list that an object can have: no key twice, keys in
    enumeration order.  [JSON.parse] of [JSON.stringify] of such an object
    lists the same properties in the same order. *)
Definition canonical (o : t) : Prop :=
  NoDup (keys o) /\ ordered_keys None (keys o) = true.

End WithValues.

Arguments t V : clear implicits.

End Obj.

(** ** Number.prototype.toString(36) on integers *)

Module Radix36.

Definition digit (d : N) : ascii :=
  if (d <? 10)%N then ascii_of_N (48 + d) else ascii_of_N (87 + d).

Fixpoint digits (fuel : nat) (n : N) (acc : string) : string :=
  match fuel with
  | O => acc
  | S fuel' =>
      let acc' := String (digit (n mod 36)) acc in
      if (n / 36 =? 0)%N then acc' else digits fuel' (n / 36)%N acc'
  end.

Definition of_N (n : N) : string := digits (S (N.to_nat (N.size n))) n "".

Definition toString (z : Z) : string :=
  match z with
  | Z0 => "0"
  | Zpos p => of_N (Npos p)
  | Zneg p => "-" ++ of_N (Npos p)
  end.

(** [Math.random().toString(36).substr(2)]: the digits after the point.
    The generator is abstracted to the digits it yields. *)
Definition fraction (ds : list N) : string :=
  fold_right (fun d s => String (digit (d mod 36)) s) "" ds.

(** Reading a numeral in base 36 back. *)
Definition digit_value (c : ascii) : N :=
  let n := N_of_ascii c in
  if (n <? 58)%N then (n - 48)%N else (n - 87)%N.

Fixpoint value_from (acc : N) (s : string) : N :=
  match s with
  | EmptyString => acc
  | String c rest => value_from (36 * acc + digit_value c)%N rest
  end.

End Radix36.


(** ** The data model (types.ts) *)

Record ChatMessage := mkMessage {
  id : string;
  username : string;
  text : string;
  timestamp : Z
}.

Definition Messages := Obj.t ChatMessage.

(** [RoomData]: the [messages] property is optional in the type. *)
Record RoomData := mkRoom {
  createdAt : Z;
  messages : option Messages
}.

Definition Rooms := Obj.t RoomData.

Definition STORAGE_KEY : string := "firechat_rooms".

(** ** The world the service runs in *)

(** What localStorage holds under [STORAGE_KEY].  The text itself is
    abstracted to what [JSON.parse] makes of it; [JSON.stringify] of a table
    followed by [JSON.parse] gives the table back, so a written table is kept
    as [Document].  A document is a table of the shape types.ts gives it
    ([RoomData], [ChatMessage]).  JSON texts of any other shape ([null], an
    array, a table with an entry that is not a room) are not represented:
    [getRooms] hands such a value over unchecked and a property read on it
    can throw a TypeError outside every [try].  The code itself only ever
    writes tables of rooms; every statement below is about an item that is
    absent, empty, not JSON, or a table of rooms. *)
Inductive Text :=
| Blank                      (* the empty string *)
| Corrupt                    (* a non-empty text that is not JSON *)
| Document (rooms : Rooms).  (* the JSON text of a table of rooms *)

(** The condition of the storage area, as far as this item is concerned. *)
Inductive Device :=
| Working
| QuotaFull                  (* setItem throws QuotaExceededError *)
| Disabled.                  (* every access throws SecurityError *)

Inductive Exn := SecurityError | SyntaxError | QuotaExceededError | TypeError.

(** The properties the code can add to objects that outlive a call: the
    [messages] property of [Object.prototype] and of the functions every
    object inherits from it. *)
Record Heap := mkHeap {
  protoMessages : option Messages;
  fnMessages : list (string * Messages)
}.

(** The closure of one [subscribeToMessages] call together with its
    registrations in the browser. *)
Record Subscription := mkSub {
  subRoom : string;          (* roomId *)
  active : bool;             (* let active *)
  ticking : bool;            (* the interval is set *)
  listening : bool           (* handleStorage is a listener of 'storage' *)
}.

(** What a callback can be handed. *)
Inductive Value :=
| VStr (s : string)
| VNum (z : Z)
| VMsg (m : ChatMessage).

Record World := mkWorld {
  item : option Text;                      (* localStorage[STORAGE_KEY] *)
  device : Device;
  heap : Heap;
  subs : list Subscription;                (* by handle *)
  alerts : list string;                    (* newest first *)
  console : list string;                   (* console.error, newest first *)
  deliveries : list (nat * list Value)
    (* the calls of the callbacks, by handle, newest first *)
}.

Definition pristine : Heap := mkHeap None [].

Definition boot (stored : option Text) (d : Device) : World :=
  mkWorld stored d pristine [] [] [] [].

Definition set_item (x : option Text) (w : World) : World :=
  mkWorld x (device w) (heap w) (subs w) (alerts w) (console w) (deliveries w).
Definition set_device (d : Device) (w : World) : World :=
  mkWorld (item w) d (heap w) (subs w) (alerts w) (console w) (deliveries w).
Definition set_heap (h : Heap) (w : World) : World :=
  mkWorld (item w) (device w) h (subs w) (alerts w) (console w) (deliveries w).
Definition set_subs (l : list Subscription) (w : World) : World :=
  mkWorld (item w) (device w) (heap w) l (alerts w) (console w) (deliveries w).
Definition add_alert (s : string) (w : World) : World :=
  mkWorld (item w) (device w) (heap w) (subs w) (s :: alerts w) (console w)
          (deliveries w).
Definition add_console (s : string) (w : World) : World :=
  mkWorld (item w) (device w) (heap w) (subs w) (alerts w) (s :: console w)
          (deliveries w).
Definition add_delivery (h : nat) (l : list Value) (w : World) : World :=
  mkWorld (item w) (device w) (heap w) (subs w) (alerts w) (console w)
          ((h, l) :: deliveries w).

(** ** Computations: state, exceptions, and the edge of the model *)

Inductive Outcome (A : Type) :=
| Returned (a : A)
| Thrown (e : Exn)
| Unmodelled.     (* the run leaves the fragment of JavaScript described here *)

Arguments Returned {A} a.
Arguments Thrown {A} e.
Arguments Unmodelled {A}.

Definition JS (A : Type) : Type := World -> Outcome A * World.

Definition ret {A} (a : A) : JS A := fun w => (Returned a, w).

Definition bind {A B} (m : JS A) (k : A -> JS B) : JS B :=
  fun w =>
    match m w with
    | (Returned a, w') => k a w'
    | (Thrown e, w') => (Thrown e, w')
    | (Unmodelled, w') => (Unmodelled, w')
    end.

Definition throw {A} (e : Exn) : JS A := fun w => (Thrown e, w).

Definition beyond {A} : JS A := fun w => (Unmodelled, w).

(** [try { m } catch (e) { handler }] *)
Definition try_catch {A} (m : JS A) (handler : Exn -> JS A) : JS A :=
  fun w =>
    match m w with
    | (Thrown e, w') => handler e w'
    | r => r
    end.

Definition get {A} (f : World -> A) : JS A := fun w => (Returned (f w), w).
Definition modify (f : World -> World) : JS unit := fun w => (Returned tt, f w).

Declare Scope js_scope.
Delimit Scope js_scope with js.
Notation "x <- m ;; k" := (bind m (fun x => k))
  (at level 61, m at next level, right associativity) : js_scope.
Notation "m ;; k" := (bind m (fun _ => k))
  (at level 61, right associativity) : js_scope.
Local Open Scope js_scope.

(** ** Browser primitives *)

Definition localStorage_getItem : JS (option Text) :=
  d <- get device ;;
  match d with
  | Disabled => throw SecurityError
  | _ => get item
  end.

Definition localStorage_setItem (x : Text) : JS unit :=
  d <- get device ;;
  match d with
  | Disabled => throw SecurityError
  | QuotaFull => throw QuotaExceededError
  | Working => modify (set_item (Some x))
  end.

Definition JSON_parse (x : Text) : JS Rooms :=
  match x with
  | Document rooms => ret rooms
  | Blank | Corrupt => throw SyntaxError
  end.

Definition JSON_stringify (rooms : Rooms) : Text := Document rooms.

(** A string is falsy exactly when it is empty. *)
Definition truthy_text (x : Text) : bool :=
  match x with Blank => false | _ => true end.

Definition console_error (s : string) : JS unit := modify (add_console s).
Definition alert (s : string) : JS unit := modify (add_alert s).

(** ** getRooms and saveRooms *)

Definition getRooms : JS Rooms :=
  try_catch
    (stored <- localStorage_getItem ;;
     match stored with
     | Some x => if truthy_text x then JSON_parse x else ret []
     | None => ret []
     end)
    (fun _ => console_error "Storage read error" ;; ret []).

Definition saveRooms (rooms : Rooms) : JS unit :=
  try_catch
    (localStorage_setItem (JSON_stringify rooms))
    (fun _ =>
       console_error "Storage save error" ;;
       alert "Local storage is full or disabled. Chat may not save.").

(** ** Property reads through the prototype chain *)

(** The functions every ordinary object inherits from [Object.prototype]. *)
Definition inheritedFunctions : list string :=
  [ "constructor"; "hasOwnProperty"; "isPrototypeOf"; "propertyIsEnumerable";
    "toLocaleString"; "toString"; "valueOf";
    "__defineGetter__"; "__defineSetter__";
    "__lookupGetter__"; "__lookupSetter__" ].

Definition is_inherited_function (k : string) : bool :=
  existsb (String.eqb k) inheritedFunctions.

(** What [rooms[roomId]] can evaluate to, other than [undefined].  All of
    them are objects, hence truthy. *)
Inductive Ref :=
| OwnRoom (room : RoomData)     (* an own property of the table *)
| ObjectPrototype               (* through the __proto__ accessor *)
| InheritedFunction (name : string)
| PrototypeMessages (m : Messages).
    (* the object a send has left in Object.prototype.messages *)

Definition lookup (h : Heap) (rooms : Rooms) (roomId : string) : option Ref :=
  match Obj.own roomId rooms with
  | Some room => Some (OwnRoom room)
  | None =>
      if String.eqb roomId "__proto__" then Some ObjectPrototype
      else if is_inherited_function roomId then Some (InheritedFunction roomId)
      else if String.eqb roomId "messages" then
        match protoMessages h with
        | Some m => Some (PrototypeMessages m)
        | None => None
        end
      else None
  end.

(** [rooms[roomId]] *)
Definition get_room (rooms : Rooms) (roomId : string) : JS (option Ref) :=
  h <- get heap ;; ret (lookup h rooms roomId).

(** The value of [target.messages], when the model can name it: an object of
    messages ([inl]), or, where the object in [Object.prototype.messages] has
    a message stored under the key "messages" itself, that message
    ([inr]). *)
Definition messages_of (h : Heap) (target : Ref)
  : option (Messages + ChatMessage) :=
  match target with
  | OwnRoom room =>
      match messages room with
      | Some ms => Some (inl ms)
      | None => option_map inl (protoMessages h)
      end
  | ObjectPrototype => option_map inl (protoMessages h)
  | InheritedFunction name =>
      match Obj.own name (fnMessages h) with
      | Some ms => Some (inl ms)
      | None => option_map inl (protoMessages h)
      end
  | PrototypeMessages m =>
      match Obj.own "messages" m with
      | Some cm => Some (inr cm)
      | None => Some (inl m)
      end
  end.

(** ** The services *)

(** [createRoom(roomId)]; [now] is what [Date.now()] answers. *)
Definition createRoom (roomId : string) (now : Z) : JS bool :=
  rooms <- getRooms ;;
  r <- get_room rooms roomId ;;
  match r with
  | Some _ => ret false  (* Collision *)
  | None =>
      saveRooms (Obj.put roomId (mkRoom now (Some [])) rooms) ;;
      ret true
  end.

(** [checkRoomExists(roomId)] *)
Definition checkRoomExists (roomId : string) : JS bool :=
  rooms <- getRooms ;;
  r <- get_room rooms roomId ;;
  ret (match r with Some _ => true | None => false end).

(** What the environment answers during one [sendMessage]: the two readings
    of the clock and the digits of the random number. *)
Record SendEnv := mkSendEnv {
  clockId : Z;
  clockStamp : Z;
  randomDigits : list N
}.

Definition messageIdOf (env : SendEnv) : string :=
  Radix36.toString (clockId env) ++ Radix36.fraction (randomDigits env).

Definition newMessageOf (username text : string) (env : SendEnv)
  : ChatMessage :=
  mkMessage (messageIdOf env) username text (clockStamp env).

(** [rooms[roomId]] in a position where a property of it is taken next. *)
Definition deref (rooms : Rooms) (roomId : string) : JS Ref :=
  r <- get_room rooms roomId ;;
  match r with
  | Some target => ret target
  | None => throw TypeError
  end.

(** [if (!rooms[roomId].messages) rooms[roomId].messages = {}] *)
Definition ensure_messages (rooms : Rooms) (roomId : string) : JS Rooms :=
  target <- deref rooms roomId ;;
  h <- get heap ;;
  match messages_of h target with
  | Some _ => ret rooms
  | None =>
      match target with
      | OwnRoom room =>
          ret (Obj.put roomId (mkRoom (createdAt room) (Some [])) rooms)
      | ObjectPrototype =>
          modify (set_heap (mkHeap (Some []) (fnMessages h))) ;; ret rooms
      | InheritedFunction name =>
          modify (set_heap
                    (mkHeap (protoMessages h)
                       (Obj.put name [] (fnMessages h)))) ;;
          ret rooms
      | PrototypeMessages _ => ret rooms  (* its [messages] is never missing *)
      end
  end.

(** [rooms[roomId].messages[messageId] = newMessage]: the object that
    [messages_of] reads is changed where it lives. *)
Definition put_message (rooms : Rooms) (roomId messageId : string)
    (newMessage : ChatMessage) : JS Rooms :=
  target <- deref rooms roomId ;;
  h <- get heap ;;
  let in_prototype : JS Rooms :=
    match protoMessages h with
    | Some pm =>
        modify (set_heap
                  (mkHeap (Some (Obj.put messageId newMessage pm))
                     (fnMessages h))) ;;
        ret rooms
    | None => throw TypeError
    end in
  match target with
  | OwnRoom room =>
      match messages room with
      | Some ms =>
          ret (Obj.put roomId
                 (mkRoom (createdAt room)
                    (Some (Obj.put messageId newMessage ms)))
                 rooms)
      | None => in_prototype
      end
  | ObjectPrototype => in_prototype
  | InheritedFunction name =>
      match Obj.own name (fnMessages h) with
      | Some ms =>
          modify (set_heap
                    (mkHeap (protoMessages h)
                       (Obj.put name (Obj.put messageId newMessage ms)
                          (fnMessages h)))) ;;
          ret rooms
      | None => in_prototype
      end
  | PrototypeMessages pm =>
      match Obj.own "messages" pm with
      | Some _ => beyond  (* a property is set on a stored message *)
      | None => in_prototype
      end
  end.

(** [sendMessage(roomId, username, text)] *)
Definition sendMessage (roomId username text : string) (env : SendEnv)
  : JS unit :=
  rooms <- getRooms ;;
  r <- get_room rooms roomId ;;
  match r with
  | None => ret tt
  | Some _ =>
      let messageId := messageIdOf env in
      let newMessage := newMessageOf username text env in
      rooms <- ensure_messages rooms roomId ;;
      rooms <- put_message rooms roomId messageId newMessage ;;
      saveRooms rooms
  end.

(** ** Subscriptions *)

(** [messageList.sort((a, b) => a.timestamp - b.timestamp)]: the sort is
    stable and the comparator is a total preorder, which fixes the result;
    it is computed here by stable insertion. *)
Fixpoint insert_by_timestamp (m : ChatMessage) (l : list ChatMessage)
  : list ChatMessage :=
  match l with
  | [] => [m]
  | x :: rest =>
      if (timestamp m <=? timestamp x)%Z then m :: l
      else x :: insert_by_timestamp m rest
  end.

Definition sort_by_timestamp (l : list ChatMessage) : list ChatMessage :=
  fold_right insert_by_timestamp [] l.

(** [callback(list)] for the subscription with handle [h]. *)
Definition callback (h : nat) (l : list Value) : JS unit :=
  modify (add_delivery h l).

(** What [checkMessages] hands to the callback for a table and a room. *)
Definition message_list (hp : Heap) (rooms : Rooms) (roomId : string)
  : list Value :=
  match lookup hp rooms roomId with
  | Some target =>
      match messages_of hp target with
      | Some (inl ms) => map VMsg (sort_by_timestamp (Obj.values ms))
      | Some (inr cm) =>
          (* Object.values of a message; the comparator yields NaN on its
             fields, which sort reads as "equal" *)
          [VStr (id cm); VStr (username cm); VStr (text cm);
           VNum (timestamp cm)]
      | None => []
      end
  | None => []
  end.

Definition checkMessages (h : nat) : JS unit :=
  s <- get (fun w => nth_error (subs w) h) ;;
  match s with
  | None => ret tt
  | Some s =>
      if negb (active s) then ret tt
      else
        rooms <- getRooms ;;
        hp <- get heap ;;
        callback h (message_list hp rooms (subRoom s))
  end.

Fixpoint update_nth {A} (n : nat) (f : A -> A) (l : list A) : list A :=
  match l, n with
  | [], _ => []
  | x :: rest, O => f x :: rest
  | x :: rest, S n' => x :: update_nth n' f rest
  end.

Definition update_sub (h : nat) (f : Subscription -> Subscription) : JS unit :=
  modify (fun w => set_subs (update_nth h f (subs w)) w).

Definition handleStorage (h : nat) (key : option string) : JS unit :=
  match key with
  | Some k => if String.eqb k STORAGE_KEY then checkMessages h else ret tt
  | None => ret tt
  end.

(** [subscribeToMessages(roomId, callback)]; the result is the handle through
    which [unsubscribe] reaches the closure. *)
Definition subscribeToMessages (roomId : string) : JS nat :=
  h <- get (fun w => List.length (subs w)) ;;
  modify (fun w =>
            set_subs (subs w ++ [mkSub roomId true false false])%list w) ;;
  checkMessages h ;;
  update_sub h (fun s => mkSub (subRoom s) (active s) true (listening s)) ;;
  update_sub h (fun s => mkSub (subRoom s) (active s) (ticking s) true) ;;
  ret h.

(** The function [subscribeToMessages] returns. *)
Definition unsubscribe (h : nat) : JS unit :=
  update_sub h (fun s => mkSub (subRoom s) false (ticking s) (listening s)) ;;
  update_sub h (fun s => mkSub (subRoom s) (active s) false (listening s)) ;;
  update_sub h (fun s => mkSub (subRoom s) (active s) (ticking s) false).

(** ** The event loop *)

Inductive Event :=
| TimerFires (h : nat)                 (* the interval of [h] elapses *)
| StorageEvent (key : option string)   (* the window's 'storage' event *)
| InFlight (h : nat)                   (* a checkMessages call already due *)
| CallCreate (roomId : string) (now : Z)
| CallExists (roomId : string)
| CallSend (roomId username text : string) (env : SendEnv)
| CallSubscribe (roomId : string)
| CallUnsubscribe (h : nat)
| Interference (stored : option Text) (d : Device).
    (* another tab rewrites the item, or the storage changes condition *)

Fixpoint for_each (hs : list nat) (f : nat -> JS unit) : JS unit :=
  match hs with
  | [] => ret tt
  | h :: rest => f h ;; for_each rest f
  end.

Definition when_sub (h : nat) (p : Subscription -> bool) (m : JS unit)
  : JS unit :=
  s <- get (fun w => nth_error (subs w) h) ;;
  match s with
  | Some s => if p s then m else ret tt
  | None => ret tt
  end.

Definition dispatch (e : Event) : JS unit :=
  match e with
  | TimerFires h => when_sub h ticking (checkMessages h)
  | StorageEvent key =>
      n <- get (fun w => List.length (subs w)) ;;
      for_each (seq 0 n) (fun h => when_sub h listening (handleStorage h key))
  | InFlight h => checkMessages h
  | CallCreate roomId now => createRoom roomId now ;; ret tt
  | CallExists roomId => checkRoomExists roomId ;; ret tt
  | CallSend roomId username text env => sendMessage roomId username text env
  | CallSubscribe roomId => subscribeToMessages roomId ;; ret tt
  | CallUnsubscribe h => unsubscribe h
  | Interference stored d => modify (fun w => set_device d (set_item stored w))
  end.

(** One task per event.  An error that escapes a task is reported by the
    browser and the loop goes on with the next event; a task that leaves the
    model ends the run. *)
Fixpoint run (es : list Event) : JS unit :=
  match es with
  | [] => ret tt
  | e :: rest =>
      fun w =>
        match dispatch e w with
        | (Unmodelled, w') => (Unmodelled, w')
        | (_, w') => run rest w'
        end
  end.

(** Whether every task of a run returns: none throws and none leaves the
    model. *)
Fixpoint all_return (es : list Event) (w : World) : bool :=
  match es with
  | [] => true
  | e :: rest =>
      match dispatch e w with
      | (Returned _, w') => all_return rest w'
      | _ => false
      end
  end.

(** The calls made to the callback of subscription [h], newest first. *)
Definition delivered_to (h : nat) (w : World) : list (list Value) :=
  map snd (filter (fun d => Nat.eqb (fst d) h) (deliveries w)).

(** ** Views of the stored state used in the statements *)

(** The table the stored item denotes, whatever the condition of the
    storage. *)
Definition stored_rooms (w : World) : Rooms :=
  match item w with
  | Some (Document rooms) => rooms
  | _ => []
  end.

(** The table [getRooms] answers with. *)
Definition table_read (w : World) : Rooms :=
  match device w with
  | Disabled => []
  | _ => stored_rooms w
  end.

(** Whether the read inside [getRooms] throws. *)
Definition read_fails (w : World) : bool :=
  match device w with
  | Disabled => true
  | _ => match item w with Some Corrupt => true | _ => false end
  end.

(** The world after [getRooms]: a failed read is reported on the console. *)
Definition after_read (w : World) : World :=
  if read_fails w then add_console "Storage read error" w else w.

(** The world after [saveRooms rooms]. *)
Definition after_save (rooms : Rooms) (w : World) : World :=
  match device w with
  | Working => set_item (Some (Document rooms)) w
  | _ =>
      add_alert "Local storage is full or disabled. Chat may not save."
        (add_console "Storage save error" w)
  end.

(** Whether [rooms[roomId]] is truthy in the table as read. *)
Definition resolves (w : World) (roomId : string) : bool :=
  match lookup (heap w) (table_read w) roomId with
  | Some _ => true
  | None => false
  end.

Definition by_timestamp (a b : ChatMessage) : Prop :=
  (timestamp a <= timestamp b)%Z.

(** The messages of a room, none when the property is missing. *)
Definition room_messages (room : RoomData) : Messages :=
  match messages room with
  | Some ms => ms
  | None => []
  end.

(** Creating the same room twice, as the specification words it: the first
    call succeeds and stores a new empty room stamped with the current time,
    the second reports the collision and leaves the stored table as it
    was. *)
Definition create_twice_spec (w : World) (r : string) (now1 now2 : Z) : Prop :=
  let (o1, w1) := createRoom r now1 w in
  let (o2, w2) := createRoom r now2 w1 in
  o1 = Returned true /\
  Obj.own r (stored_rooms w1) = Some (mkRoom now1 (Some [])) /\
  o2 = Returned false /\
  stored_rooms w2 = stored_rooms w1.

Definition SAVE_ALERT : string :=
  "Local storage is full or disabled. Chat may not save.".

(** A subscription that has been torn down: the flag is off, the interval is
    cleared and the listener is detached. *)
Definition stopped (h : nat) (w : World) : Prop :=
  exists s, nth_error (subs w) h = Some s /\
            active s = false /\ ticking s = false /\ listening s = false.

(** The frame of a send to a stored room, as the specification words it:
    the other rooms, the room's creation time and every message stored
    before stay as they were. *)
Definition send_frame_spec (w : World) (r u t : string) (env : SendEnv)
  : Prop :=
  let w' := snd (sendMessage r u t env w) in
  forall room, Obj.own r (stored_rooms w) = Some room ->
    (forall r', r' <> r ->
       Obj.own r' (stored_rooms w') = Obj.own r' (stored_rooms w)) /\
    exists room',
      Obj.own r (stored_rooms w') = Some room' /\
      createdAt room' = createdAt room /\
      forall mid m, Obj.own mid (room_messages room) = Some m ->
                    Obj.own mid (room_messages room') = Some m.

(** One call of a sequence of sends: who sends what, and what the
    environment answers during the call. *)
Record SendCall := mkSendCall {
  sender : string;
  body : string;
  answers : SendEnv
}.

Definition send_events (r : string) (calls : list SendCall) : list Event :=
  map (fun c => CallSend r (sender c) (body c) (answers c)) calls.

Definition sent_messages (calls : list SendCall) : list ChatMessage :=
  map (fun c => newMessageOf (sender c) (body c) (answers c)) calls.

Definition sent_ids (calls : list SendCall) : list string :=
  map (fun c => messageIdOf (answers c)) calls.

(** What a subscription hands over after a sequence of sends to a room that
    was empty before them, as the specification words it: a list sorted by
    timestamp that holds exactly the messages sent. *)
Definition delivery_after_sends_spec (w : World) (r : string) (h : nat)
    (calls : list SendCall) : Prop :=
  let w1 := snd (run (send_events r calls) w) in
  let w2 := snd (checkMessages h w1) in
  exists l,
    deliveries w2 = (h, map VMsg l) :: deliveries w1 /\
    StronglySorted by_timestamp l /\
    forall m, In m l <-> In m (sent_messages calls).

(** What must survive every event once the subscription [h] is stopped: it
    stays stopped and the calls made to its callback stay [seen]. *)
Definition silenced (h : nat) (seen : list (list Value)) (w : World) : Prop :=
  stopped h w /\ delivered_to h w = seen.

(** A computation keeps [P] when the world it leaves, whatever the outcome,
    satisfies [P] if the world it started in did. *)
Definition keeps (P : World -> Prop) {A} (m : JS A) : Prop :=
  forall w, P w -> P (snd (m w)).

(** A table as [JSON.parse] yields it: the table and the message object of
    each room list their properties the way an object does. *)
Definition well_formed (rooms : Rooms) : Prop :=
  Obj.canonical rooms /\
  forall r room, Obj.own r rooms = Some room ->
                 Obj.canonical (room_messages room).

(** ** The callers: the home screen and the chat room *)

(** [Number.prototype.toString()] on a non-negative integer. *)
Module Radix10.

Definition digit (d : N) : ascii := ascii_of_N (48 + d).

Fixpoint digits (fuel : nat) (n : N) (acc : string) : string :=
  match fuel with
  | O => acc
  | S fuel' =>
      let acc' := String (digit (n mod 10)) acc in
      if (n / 10 =? 0)%N then acc' else digits fuel' (n / 10)%N acc'
  end.

Definition of_N (n : N) : string := digits (S (N.to_nat (N.size n))) n "".

End Radix10.

(** [await m]: the caller is suspended, the tasks [others] run, and then the
    body of the service runs. *)
Definition await {A} (others : list Event) (m : JS A) : JS A :=
  run others ;; m.

(** What [console.error(err)] shows of a caught exception. *)
Definition exn_name (e : Exn) : string :=
  match e with
  | SecurityError => "SecurityError"
  | SyntaxError => "SyntaxError"
  | QuotaExceededError => "QuotaExceededError"
  | TypeError => "TypeError"
  end.

(** The component Home (its handlers; the markup is left out).
    [String.prototype.trim] is taken as a parameter. *)
Module Home.
Section WithTrim.

Variable trim : string -> string.

Record State := mkState {
  username : string;
  joinRoomId : string;
  error : option string;
  loading : bool
}.

Definition setError (e : option string) (st : State) : State :=
  mkState (username st) (joinRoomId st) e (loading st).

Definition setLoading (b : bool) (st : State) : State :=
  mkState (username st) (joinRoomId st) (error st) b.

(** What the environment answers during one [handleCreateRoom]: the random
    numbers (the k-th one as the integer below 900000 that
    [Math.floor(... * 900000)] makes of it), the clock, and the tasks that run
    while the handler is suspended at its k-th [await]. *)
Record CreateEnv := mkCreateEnv {
  draws : nat -> N;
  now : Z;
  meanwhile : nat -> list Event
}.

(** [Math.floor(100000 + Math.random() * 900000).toString()] *)
Definition randomRoomId (x : N) : string :=
  Radix10.of_N (100000 + x mod 900000).

Definition validateUsername (st : State) : bool * State :=
  if String.eqb (trim (username st)) ""
  then (false,
        setError (Some "Please enter a username to start chatting.") st)
  else (true, st).

(** [while (exists && attempts < 3) { ... attempts++ }], with [3 - attempts]
    as [left] and [k] counting the random numbers drawn. *)
Fixpoint retry (env : CreateEnv) (left : nat) (k : nat) (newRoomId : string)
    (exists_ : bool) : JS (string * bool) :=
  match left with
  | O => ret (newRoomId, exists_)
  | S left' =>
      if exists_ then
        let newRoomId := randomRoomId (draws env k) in
        exists_ <- await (meanwhile env k) (checkRoomExists newRoomId) ;;
        retry env left' (S k) newRoomId exists_
      else ret (newRoomId, exists_)
  end.

(** The catch block of both handlers, followed by their finally block. *)
Definition failed (st : State) : State * option (string * string) :=
  (setLoading false
     (setError (Some "An error occurred. Please try again.") st), None).

(** [handleCreateRoom]; the second component of the result is the call
    [onJoinRoom(newRoomId, username)], if it is made. *)
Definition handleCreateRoom (st : State) (env : CreateEnv)
  : JS (State * option (string * string)) :=
  let (valid, st) := validateUsername st in
  if negb valid then ret (st, None)
  else
    let st := setError None (setLoading true st) in
    try_catch
      (let newRoomId := randomRoomId (draws env 0) in
       exists_ <- await (meanwhile env 0) (checkRoomExists newRoomId) ;;
       found <- retry env 3 1 newRoomId exists_ ;;
       let (newRoomId, exists_) := found in
       if exists_ then
         (* throw new Error(...), caught by the catch block below *)
         console_error
           "Could not generate a unique room ID. Please try again." ;;
         ret (failed st)
       else
         success <- await (meanwhile env 4)
                      (createRoom newRoomId (now env)) ;;
         if success
         then ret (setLoading false st, Some (newRoomId, username st))
         else ret (setLoading false
                     (setError
                        (Some "Failed to create room. Please try again.") st),
                   None))
      (fun err => console_error (exn_name err) ;; ret (failed st)).

(** [handleJoinRoom]; [others] are the tasks that run while it waits for
    [checkRoomExists]. *)
Definition handleJoinRoom (st : State) (others : list Event)
  : JS (State * option (string * string)) :=
  let (valid, st) := validateUsername st in
  if negb valid then ret (st, None)
  else if String.eqb (trim (joinRoomId st)) ""
  then ret (setError (Some "Please enter a room ID.") st, None)
  else
    let st := setError None (setLoading true st) in
    try_catch
      (exists_ <- await others (checkRoomExists (trim (joinRoomId st))) ;;
       if exists_
       then ret (setLoading false st,
                 Some (trim (joinRoomId st), username st))
       else ret (setLoading false
                   (setError (Some "Room not found. Please check the ID.") st),
                 None))
      (fun _ => ret (failed st)).

End WithTrim.
End Home.

(** The component ChatRoom (its send handler). *)
Module ChatRoom.
Section WithTrim.

Variable trim : string -> string.

Record Props := mkProps {
  roomId : string;
  username : string
}.

Record State := mkState {
  inputText : string;
  sending : bool
}.

Definition setInputText (s : string) (st : State) : State :=
  mkState s (sending st).

Definition setSending (b : bool) (st : State) : State :=
  mkState (inputText st) b.

(** [handleSend]; [others] are the tasks that run while it waits for
    [sendMessage]. *)
Definition handleSend (props : Props) (st : State) (others : list Event)
    (env : SendEnv) : JS State :=
  if String.eqb (trim (inputText st)) "" then ret st
  else
    let st := setSending true st in
    try_catch
      (await others
         (sendMessage (roomId props) (username props) (trim (inputText st))
            env) ;;
       ret (setSending false (setInputText "" st)))
      (fun _ => alert "Failed to send message" ;; ret (setSending false st)).

End WithTrim.
End ChatRoom.

(** ** Further notions used in the statements *)

(** Events made by this tab only. *)
Definition own_event (e : Event) : bool :=
  match e with
  | Interference _ _ => false
  | _ => true
  end.

(** Events that only read: ticks, storage events, checks, and the making and
    unmaking of subscriptions. *)
Definition reading_event (e : Event) : bool :=
  match e with
  | CallCreate _ _ | CallSend _ _ _ _ | Interference _ _ => false
  | _ => true
  end.

(** The characters of a generated message identifier. *)
Definition id_char (c : ascii) : bool :=
  let n := N_of_ascii c in
  ((48 <=? n) && (n <=? 57) || (97 <=? n) && (n <=? 122) || (n =? 45))%N.

Fixpoint all_chars (p : ascii -> bool) (s : string) : bool :=
  match s with
  | EmptyString => true
  | String c rest => p c && all_chars p rest
  end.

(** The messages of a list that carry the timestamp [t], in order. *)
Definition stamped (t : Z) (l : list ChatMessage) : list ChatMessage :=
  filter (fun m => (timestamp m =? t)%Z) l.

(** The room [room'] continues the room [room]: same creation time, and no
    message identifier gone. *)
Definition continues (room room' : RoomData) : Prop :=
  createdAt room' = createdAt room /\
  forall mid, Obj.own mid (room_messages room) <> None ->
              Obj.own mid (room_messages room') <> None.

(** The world [w] holds the same stored item, in the same condition of the
    storage, with the same built-in objects and the same alerts as [w0]. *)
Definition untouched (w0 w : World) : Prop :=
  item w = item w0 /\ device w = device w0 /\ heap w = heap w0 /\
  alerts w = alerts w0.

(** The room that [w0] stores under [r] is continued in [w]. *)
Definition survives (r : string) (room : RoomData) (w : World) : Prop :=
  exists room', Obj.own r (stored_rooms w) = Some room' /\
                continues room room'.

(** Whether the table has no entry under [r]. *)
Definition vacant (rooms : Rooms) (r : string) : bool :=
  match Obj.own r rooms with
  | Some _ => false
  | None => true
  end.

(** The identifiers [handleCreateRoom] can try, in order. *)
Definition candidates (env : Home.CreateEnv) : list string :=
  map (fun k => Home.randomRoomId (Home.draws env k)) (seq 0 4).

(** * Properties *)

(** ** Property lists *)

Module ObjFacts.
Import Obj.

Section WithValues.
Context {V : Type}.
Implicit Types (o : Obj.t V) (k : string) (v : V).

Lemma own_update_same k v o :
  own k o <> None -> own k (update k v o) = Some v.
Proof.
  induction o as [|[k' v'] rest IH]; simpl; [congruence|].
  destruct (String.eqb k k') eqn:E; simpl; rewrite E; auto.
Qed.

Lemma own_update_other k k' v o :
  k' <> k -> own k' (update k v o) = own k' o.
Proof.
  intros Hne. induction o as [|[k0 v0] rest IH]; simpl; [reflexivity|].
  destruct (String.eqb k k0) eqn:E; simpl.
  - apply String.eqb_eq in E. subst k0.
    apply String.eqb_neq in Hne. rewrite Hne. reflexivity.
  - rewrite IH. reflexivity.
Qed.

Lemma own_insert_index_same i k v o :
  own k o = None -> own k (insert_index i k v o) = Some v.
Proof.
  induction o as [|[k' v'] rest IH]; simpl; intros H.
  - rewrite String.eqb_refl. reflexivity.
  - destruct (String.eqb k k') eqn:E; [discriminate|].
    destruct (array_index k') as [j|]; [destruct (i <? j)%N|]; simpl;
      rewrite ?String.eqb_refl, ?E; auto.
Qed.

Lemma own_insert_index_other i k k' v o :
  k' <> k -> own k' (insert_index i k v o) = own k' o.
Proof.
  intros Hne. apply String.eqb_neq in Hne.
  induction o as [|[k0 v0] rest IH]; simpl.
  - rewrite Hne. reflexivity.
  - destruct (array_index k0) as [j|]; [destruct (i <? j)%N|]; simpl;
      rewrite ?Hne, ?IH; reflexivity.
Qed.

Lemma own_app k o o' :
  own k (o ++ o')%list =
  match own k o with Some v => Some v | None => own k o' end.
Proof.
  induction o as [|[k0 v0] rest IH]; simpl; [reflexivity|].
  destruct (String.eqb k k0); auto.
Qed.

(** Reading back what was assigned. *)
Lemma own_put_same k v o : own k (put k v o) = Some v.
Proof.
  unfold put. destruct (own k o) eqn:E.
  - apply own_update_same. congruence.
  - destruct (array_index k).
    + apply own_insert_index_same, E.
    + rewrite own_app, E. simpl. rewrite String.eqb_refl. reflexivity.
Qed.

(** An assignment leaves the other properties alone. *)
Lemma own_put_other k k' v o : k' <> k -> own k' (put k v o) = own k' o.
Proof.
  intros Hne. unfold put. destruct (own k o).
  - apply own_update_other, Hne.
  - destruct (array_index k).
    + apply own_insert_index_other, Hne.
    + rewrite own_app. simpl. apply String.eqb_neq in Hne. rewrite Hne.
      destruct (own k' o); reflexivity.
Qed.

Lemma values_insert_index i k v o :
  Permutation (values (insert_index i k v o)) (v :: values o).
Proof.
  induction o as [|[k' v'] rest IH]; simpl; [reflexivity|].
  destruct (array_index k') as [j|]; [destruct (i <? j)%N|]; simpl;
    try reflexivity.
  fold (values (insert_index i k v rest)). fold (values rest).
  rewrite IH. apply perm_swap.
Qed.

(** A new property adds its value to [Object.values] and moves nothing
    out. *)
Lemma values_put_fresh k v o :
  own k o = None -> Permutation (values (put k v o)) (v :: values o).
Proof.
  intros H. unfold put. rewrite H. destruct (array_index k).
  - apply values_insert_index.
  - unfold values. rewrite map_app. simpl.
    symmetry. apply Permutation_cons_append.
Qed.

Lemma keys_update k v o : keys (update k v o) = keys o.
Proof.
  induction o as [|[k' v'] rest IH]; simpl; [reflexivity|].
  destruct (String.eqb k k'); simpl; [reflexivity|].
  fold (keys (update k v rest)). fold (keys rest). now rewrite IH.
Qed.

Lemma own_none_iff k o : own k o = None <-> ~ In k (keys o).
Proof.
  induction o as [|[k' v'] rest IH]; simpl; [tauto|].
  destruct (String.eqb k k') eqn:E.
  - apply String.eqb_eq in E. subst. split; [discriminate|tauto].
  - apply String.eqb_neq in E. rewrite IH. fold (keys rest).
    split; [intros H [H'|H']; [congruence|tauto] | tauto].
Qed.

Lemma update_update k v v' o : update k v (update k v' o) = update k v o.
Proof.
  induction o as [|[k' v0] rest IH]; simpl; [reflexivity|].
  destruct (String.eqb k k') eqn:E; simpl; rewrite E; [reflexivity|].
  now rewrite IH.
Qed.

Lemma put_existing k v o : own k o <> None -> put k v o = update k v o.
Proof. unfold put. destruct (own k o); congruence. Qed.

(** Assigning twice to a property that exists is assigning the last
    value. *)
Lemma put_overwrite k v v' o :
  own k o <> None -> put k v (put k v' o) = put k v o.
Proof.
  intros H. rewrite (put_existing k v' o H), (put_existing k v o H).
  rewrite put_existing by (rewrite own_update_same by exact H; discriminate).
  apply update_update.
Qed.

Lemma keys_insert_index i k v o :
  Permutation (keys (insert_index i k v o)) (k :: keys o).
Proof.
  induction o as [|[k' v'] rest IH]; simpl; [reflexivity|].
  destruct (array_index k') as [j|]; [destruct (i <? j)%N|]; simpl;
    try reflexivity.
  fold (keys (insert_index i k v rest)). fold (keys rest).
  rewrite IH. apply perm_swap.
Qed.

Lemma ordered_insert_index i k v o :
  array_index k = Some i ->
  forall lo,
    match lo with Some j => (j <= i)%N | None => True end ->
    ordered_keys lo (keys o) = true ->
    ordered_keys lo (keys (insert_index i k v o)) = true.
Proof.
  intros Hk. unfold keys.
  induction o as [|[k' v'] rest IH]; intros lo Hlo Hord.
  - cbn. rewrite Hk. destruct lo as [j|]; [|reflexivity].
    apply N.leb_le in Hlo. now rewrite Hlo.
  - cbn [insert_index]. cbn [map fst ordered_keys] in Hord.
    destruct (array_index k') as [j|] eqn:Hk'.
    + apply andb_prop in Hord. destruct Hord as [Hlj Hrest].
      destruct (i <? j)%N eqn:Hij.
      * cbn [map fst ordered_keys]. rewrite Hk, Hk'.
        apply N.ltb_lt in Hij.
        replace (i <=? j)%N with true by (symmetry; apply N.leb_le; lia).
        rewrite Hrest.
        destruct lo as [j0|]; [|reflexivity].
        apply N.leb_le in Hlo. now rewrite Hlo.
      * cbn [map fst ordered_keys]. rewrite Hk', Hlj.
        apply N.ltb_ge in Hij. cbn [andb]. now apply IH.
    + cbn [map fst ordered_keys]. rewrite Hk, Hk'.
      rewrite Hord.
      destruct lo as [j0|]; [|reflexivity].
      apply N.leb_le in Hlo. now rewrite Hlo.
Qed.

Lemma ordered_append k :
  array_index k = None ->
  forall ks lo, ordered_keys lo ks = true ->
                ordered_keys lo (ks ++ [k]) = true.
Proof.
  intros Hk. induction ks as [|k' rest IH]; intros lo Hord.
  - cbn. now rewrite Hk.
  - cbn [app ordered_keys] in *. destruct (array_index k') as [j|].
    + apply andb_prop in Hord. destruct Hord as [-> Hrest].
      cbn [andb]. now apply IH.
    + rewrite forallb_app, Hord. cbn. now rewrite Hk.
Qed.

(** An assignment keeps a property list one that an object can have. *)
Lemma put_canonical k v o : canonical o -> canonical (put k v o).
Proof.
  intros [Hnd Hord]. unfold canonical, put.
  destruct (own k o) eqn:Hown.
  - now rewrite keys_update.
  - apply own_none_iff in Hown. destruct (array_index k) as [i|] eqn:Hk.
    + split.
      * eapply Permutation_NoDup;
          [symmetry; apply keys_insert_index|now constructor].
      * now apply ordered_insert_index.
    + unfold keys in *. rewrite map_app. cbn [map fst]. split.
      * eapply Permutation_NoDup;
          [apply Permutation_cons_append|now constructor].
      * now apply ordered_append.
Qed.

Lemma canonical_empty : canonical ([] : Obj.t V).
Proof. split; [constructor|reflexivity]. Qed.

End WithValues.
End ObjFacts.

(** ** Numerals in base 36 *)

Module Radix36Facts.
Import Radix36.

Lemma digit_value_digit (d : N) : (d < 36)%N -> digit_value (digit d) = d.
Proof.
  intros Hd. unfold digit, digit_value.
  destruct (d <? 10)%N eqn:E.
  - apply N.ltb_lt in E. rewrite N_ascii_embedding by lia.
    replace (48 + d <? 58)%N with true by (symmetry; apply N.ltb_lt; lia).
    lia.
  - apply N.ltb_ge in E. rewrite N_ascii_embedding by lia.
    replace (87 + d <? 58)%N with false by (symmetry; apply N.ltb_ge; lia).
    lia.
Qed.

Lemma value_from_digits (fuel : nat) :
  forall (n : N) (acc : string),
    (n < 2 ^ N.of_nat fuel)%N ->
    value_from 0 (digits fuel n acc) = value_from n acc.
Proof.
  induction fuel as [|fuel IH]; intros n acc Hn.
  - cbn in Hn. assert (n = 0%N) by lia. subst. reflexivity.
  - cbn [digits].
    assert (Hmod : (n mod 36 < 36)%N) by (apply N.mod_lt; lia).
    pose proof (N.div_mod n 36 ltac:(lia)) as Hdm.
    destruct (n / 36 =? 0)%N eqn:E.
    + apply N.eqb_eq in E. cbn [value_from].
      rewrite digit_value_digit by exact Hmod. f_equal. lia.
    + rewrite IH.
      * cbn [value_from]. rewrite digit_value_digit by exact Hmod.
        f_equal. lia.
      * rewrite Nat2N.inj_succ, N.pow_succ_r' in Hn.
        apply N.Div0.div_lt_upper_bound. lia.
Qed.

(** [toString] loses nothing: the numeral reads back as the number, whatever
    its size. *)
Lemma value_of_N (n : N) : value_from 0 (of_N n) = n.
Proof.
  unfold of_N. rewrite value_from_digits; [reflexivity|].
  rewrite Nat2N.inj_succ, N2Nat.id, N.pow_succ_r'.
  pose proof (N.size_gt n). lia.
Qed.

Lemma of_N_injective (n n' : N) : of_N n = of_N n' -> n = n'.
Proof.
  intros H. rewrite <- (value_of_N n), <- (value_of_N n'). now rewrite H.
Qed.

End Radix36Facts.

(** ** The storage layer in closed form *)

Ltac js_unfold :=
  unfold bind, ret, get, modify, throw, beyond, try_catch in *.

Lemma getRooms_spec (w : World) :
  getRooms w = (Returned (table_read w), after_read w).
Proof.
  unfold getRooms, localStorage_getItem, JSON_parse, console_error,
    table_read, after_read, read_fails, stored_rooms.
  js_unfold.
  destruct w as [it d hp sb al co dl]; simpl.
  destruct d; destruct it as [[| |rooms]|]; reflexivity.
Qed.

Lemma saveRooms_spec (rooms : Rooms) (w : World) :
  saveRooms rooms w = (Returned tt, after_save rooms w).
Proof.
  unfold saveRooms, localStorage_setItem, console_error, alert, after_save.
  js_unfold.
  destruct w as [it d hp sb al co dl]; simpl.
  destruct d; reflexivity.
Qed.

Lemma after_read_fields (w : World) :
  item (after_read w) = item w /\ device (after_read w) = device w /\
  heap (after_read w) = heap w /\ subs (after_read w) = subs w /\
  alerts (after_read w) = alerts w /\
  deliveries (after_read w) = deliveries w.
Proof. unfold after_read. destruct (read_fails w); simpl; auto 10. Qed.

Lemma after_save_fields (rooms : Rooms) (w : World) :
  device (after_save rooms w) = device w /\
  heap (after_save rooms w) = heap w /\ subs (after_save rooms w) = subs w /\
  deliveries (after_save rooms w) = deliveries w.
Proof. unfold after_save. destruct (device w) eqn:E; simpl; auto. Qed.

(** A read that succeeded leaves no trace; reading twice sees the same
    table. *)
Lemma after_read_working (w : World) :
  device w = Working -> (exists rooms, item w = Some (Document rooms)) ->
  after_read w = w.
Proof.
  intros Hd [rooms Hi]. unfold after_read, read_fails. now rewrite Hd, Hi.
Qed.

Lemma table_read_after_read (w : World) :
  table_read (after_read w) = table_read w.
Proof.
  unfold table_read, stored_rooms.
  destruct (after_read_fields w) as (Hi & Hd & _). now rewrite Hi, Hd.
Qed.

Lemma createRoom_spec (roomId : string) (now : Z) (w : World) :
  createRoom roomId now w =
  if resolves w roomId then (Returned false, after_read w)
  else (Returned true,
        after_save (Obj.put roomId (mkRoom now (Some [])) (table_read w))
          (after_read w)).
Proof.
  unfold createRoom, get_room, resolves. js_unfold.
  rewrite getRooms_spec. simpl.
  destruct (after_read_fields w) as (_ & _ & Hh & _). rewrite Hh.
  destruct (lookup (heap w) (table_read w) roomId); [reflexivity|].
  rewrite saveRooms_spec. reflexivity.
Qed.

Lemma checkRoomExists_spec (roomId : string) (w : World) :
  checkRoomExists roomId w = (Returned (resolves w roomId), after_read w).
Proof.
  unfold checkRoomExists, get_room, resolves. js_unfold.
  rewrite getRooms_spec. simpl.
  destruct (after_read_fields w) as (_ & _ & Hh & _). rewrite Hh.
  destruct (lookup (heap w) (table_read w) roomId); reflexivity.
Qed.

Lemma checkMessages_spec (h : nat) (w : World) :
  checkMessages h w =
  match nth_error (subs w) h with
  | Some s =>
      if active s
      then (Returned tt,
            add_delivery h (message_list (heap w) (table_read w) (subRoom s))
              (after_read w))
      else (Returned tt, w)
  | None => (Returned tt, w)
  end.
Proof.
  unfold checkMessages, callback. js_unfold.
  destruct (nth_error (subs w) h) as [s|]; [|reflexivity].
  destruct (active s); simpl; [|reflexivity].
  rewrite getRooms_spec.
  destruct (after_read_fields w) as (_ & _ & Hh & _). now rewrite Hh.
Qed.

(** ** Creating a room twice *)

Lemma resolves_own (w : World) (r : string) (room : RoomData) :
  Obj.own r (table_read w) = Some room -> resolves w r = true.
Proof. unfold resolves, lookup. now intros ->. Qed.

Lemma resolves_false_own (w : World) (r : string) :
  resolves w r = false -> Obj.own r (table_read w) = None.
Proof.
  unfold resolves, lookup.
  destruct (Obj.own r (table_read w)); [discriminate|auto].
Qed.

(** C1, with its side conditions.  When the storage accepts writes and
    [rooms[r]] is undefined in the table as read, the first [createRoom r]
    returns true and stores a new empty room created at the current time; the
    second returns false and changes nothing at all. *)
Theorem createRoom_twice (w : World) (r : string) (now1 now2 : Z) :
  device w = Working ->
  resolves w r = false ->
  let w1 := snd (createRoom r now1 w) in
  let w2 := snd (createRoom r now2 w1) in
  fst (createRoom r now1 w) = Returned true /\
  Obj.own r (stored_rooms w1) = Some (mkRoom now1 (Some [])) /\
  fst (createRoom r now2 w1) = Returned false /\
  w2 = w1 /\
  create_twice_spec w r now1 now2.
Proof.
  intros Hd Hr. unfold create_twice_spec.
  rewrite (createRoom_spec r now1 w), Hr. cbn [fst snd].
  set (rooms1 := Obj.put r (mkRoom now1 (Some [])) (table_read w)).
  assert (Hd' : device (after_read w) = Working)
    by (destruct (after_read_fields w) as (_ & -> & _); exact Hd).
  assert (Hs : after_save rooms1 (after_read w)
               = set_item (Some (Document rooms1)) (after_read w))
    by (unfold after_save; now rewrite Hd').
  rewrite Hs. set (w1 := set_item (Some (Document rooms1)) (after_read w)).
  assert (Hown : Obj.own r (stored_rooms w1) = Some (mkRoom now1 (Some [])))
    by (unfold w1, stored_rooms, rooms1; simpl; apply ObjFacts.own_put_same).
  assert (Hres : resolves w1 r = true).
  { apply resolves_own with (room := mkRoom now1 (Some [])).
    unfold table_read. unfold w1 at 1. simpl. rewrite Hd'. exact Hown. }
  assert (Hw1 : after_read w1 = w1).
  { apply after_read_working; [exact Hd'|]. exists rooms1. reflexivity. }
  rewrite (createRoom_spec r now2 w1), Hres, Hw1. cbn [fst snd].
  repeat split; auto.
Qed.

Lemma createRoom_twice_witness :
  create_twice_spec (boot None Working) "123456" 1 2.
Proof.
  apply (createRoom_twice (boot None Working) "123456" 1 2); reflexivity.
Defined.

(** C1 fails as worded: when the write is refused both calls return true and
    nothing is stored; and when the room is there already the first call
    reports the collision. *)
Lemma createRoom_twice_refuted :
  ~ create_twice_spec (boot None QuotaFull) "123456" 1 2 /\
  ~ create_twice_spec
      (boot (Some (Document [("123456", mkRoom 0 (Some []))])) Working)
      "123456" 1 2.
Proof.
  split; intros H; vm_compute in H;
    destruct H as (H1 & H2 & H3 & H4); discriminate.
Qed.

(** ** Sending, in closed form *)

Lemma sendMessage_unresolved (r u t : string) (env : SendEnv) (w : World) :
  resolves w r = false ->
  sendMessage r u t env w = (Returned tt, after_read w).
Proof.
  unfold sendMessage, get_room, resolves. js_unfold.
  rewrite getRooms_spec. simpl.
  destruct (after_read_fields w) as (_ & _ & Hh & _). rewrite Hh.
  destruct (lookup (heap w) (table_read w) r); [discriminate|reflexivity].
Qed.

Lemma bind_returned {A B} (m : JS A) (k : A -> JS B) (w w' : World) (a : A) :
  m w = (Returned a, w') -> bind m k w = k a w'.
Proof. unfold bind. now intros ->. Qed.

Lemma deref_spec (rooms : Rooms) (r : string) (w : World) :
  deref rooms r w =
  match lookup (heap w) rooms r with
  | Some target => (Returned target, w)
  | None => (Thrown TypeError, w)
  end.
Proof.
  unfold deref, get_room. js_unfold.
  destruct (lookup (heap w) rooms r); reflexivity.
Qed.

Lemma lookup_own (hp : Heap) (rooms : Rooms) (r : string) (room : RoomData) :
  Obj.own r rooms = Some room -> lookup hp rooms r = Some (OwnRoom room).
Proof. unfold lookup. now intros ->. Qed.

Lemma ensure_messages_own (rooms : Rooms) (r : string) (room : RoomData)
    (w : World) :
  Obj.own r rooms = Some room ->
  ensure_messages rooms r w =
  (Returned
     (match messages room, protoMessages (heap w) with
      | None, None => Obj.put r (mkRoom (createdAt room) (Some [])) rooms
      | _, _ => rooms
      end), w).
Proof.
  intros Hown. unfold ensure_messages.
  rewrite (bind_returned _ _ w w (OwnRoom room))
    by (rewrite deref_spec, (lookup_own _ _ _ _ Hown); reflexivity).
  js_unfold. cbn [messages_of].
  destruct (messages room); [reflexivity|].
  destruct (protoMessages (heap w)); reflexivity.
Qed.

Lemma put_message_own (rooms : Rooms) (r mid : string) (m : ChatMessage)
    (room : RoomData) (w : World) :
  Obj.own r rooms = Some room ->
  put_message rooms r mid m w =
  match messages room, protoMessages (heap w) with
  | Some ms, _ =>
      (Returned (Obj.put r (mkRoom (createdAt room) (Some (Obj.put mid m ms)))
                   rooms), w)
  | None, Some pm =>
      (Returned rooms,
       set_heap (mkHeap (Some (Obj.put mid m pm)) (fnMessages (heap w))) w)
  | None, None => (Thrown TypeError, w)
  end.
Proof.
  intros Hown. unfold put_message.
  rewrite (bind_returned _ _ w w (OwnRoom room))
    by (rewrite deref_spec, (lookup_own _ _ _ _ Hown); reflexivity).
  js_unfold.
  destruct (messages room); [reflexivity|].
  destruct (protoMessages (heap w)); reflexivity.
Qed.

(** A send to a room that has an entry: the message goes into the room's own
    [messages] object, which is created when missing, unless a [messages]
    property inherited from [Object.prototype] stands in for it. *)
Lemma sendMessage_own (r u t : string) (env : SendEnv) (w : World)
    (room : RoomData) :
  Obj.own r (table_read w) = Some room ->
  sendMessage r u t env w =
  (Returned tt,
   match messages room, protoMessages (heap w) with
   | None, Some pm =>
       after_save (table_read w)
         (set_heap
            (mkHeap (Some (Obj.put (messageIdOf env) (newMessageOf u t env) pm))
               (fnMessages (heap w)))
            (after_read w))
   | _, _ =>
       after_save
         (Obj.put r
            (mkRoom (createdAt room)
               (Some (Obj.put (messageIdOf env) (newMessageOf u t env)
                        (room_messages room))))
            (table_read w))
         (after_read w)
   end).
Proof.
  intros Hown.
  destruct (after_read_fields w) as (_ & _ & Hh & _).
  unfold sendMessage.
  rewrite (bind_returned _ _ _ _ _ (getRooms_spec w)).
  rewrite (bind_returned _ _ (after_read w) (after_read w)
             (Some (OwnRoom room)))
    by (unfold get_room; js_unfold;
        now rewrite (lookup_own _ _ _ _ Hown)).
  rewrite (bind_returned _ _ _ _ _
             (ensure_messages_own _ _ _ (after_read w) Hown)).
  rewrite Hh. unfold room_messages.
  destruct (messages room) as [ms|] eqn:Hm.
  - unfold bind. rewrite (put_message_own _ _ _ _ _ _ Hown), Hm.
    rewrite saveRooms_spec. reflexivity.
  - destruct (protoMessages (heap w)) as [pm|] eqn:Hp.
    + unfold bind. rewrite (put_message_own _ _ _ _ _ _ Hown), Hm, Hh, Hp.
      rewrite saveRooms_spec. reflexivity.
    + set (room1 := mkRoom (createdAt room) (Some [])).
      assert (Hown1 : Obj.own r (Obj.put r room1 (table_read w)) = Some room1)
        by apply ObjFacts.own_put_same.
      unfold bind. rewrite (put_message_own _ _ _ _ _ _ Hown1).
      cbn [room1 messages createdAt].
      rewrite saveRooms_spec.
      rewrite ObjFacts.put_overwrite by congruence. reflexivity.
Qed.

Lemma ensure_messages_spec (rooms : Rooms) (r : string) (w : World) :
  ensure_messages rooms r w =
  match lookup (heap w) rooms r with
  | None => (Thrown TypeError, w)
  | Some target =>
      match messages_of (heap w) target with
      | Some _ => (Returned rooms, w)
      | None =>
          match target with
          | OwnRoom room =>
              (Returned (Obj.put r (mkRoom (createdAt room) (Some [])) rooms),
               w)
          | ObjectPrototype =>
              (Returned rooms,
               set_heap (mkHeap (Some []) (fnMessages (heap w))) w)
          | InheritedFunction name =>
              (Returned rooms,
               set_heap
                 (mkHeap (protoMessages (heap w))
                    (Obj.put name [] (fnMessages (heap w)))) w)
          | PrototypeMessages _ => (Returned rooms, w)
          end
      end
  end.
Proof.
  unfold ensure_messages, bind. rewrite deref_spec.
  destruct (lookup (heap w) rooms r) as [target|]; [|reflexivity].
  js_unfold. destruct (messages_of (heap w) target); [reflexivity|].
  destruct target; reflexivity.
Qed.

Lemma put_message_spec (rooms : Rooms) (r mid : string) (m : ChatMessage)
    (w : World) :
  put_message rooms r mid m w =
  let in_prototype :=
    match protoMessages (heap w) with
    | Some pm =>
        (Returned rooms,
         set_heap (mkHeap (Some (Obj.put mid m pm)) (fnMessages (heap w))) w)
    | None => (Thrown TypeError, w)
    end in
  match lookup (heap w) rooms r with
  | None => (Thrown TypeError, w)
  | Some (OwnRoom room) =>
      match messages room with
      | Some ms =>
          (Returned
             (Obj.put r (mkRoom (createdAt room) (Some (Obj.put mid m ms)))
                rooms), w)
      | None => in_prototype
      end
  | Some ObjectPrototype => in_prototype
  | Some (InheritedFunction name) =>
      match Obj.own name (fnMessages (heap w)) with
      | Some ms =>
          (Returned rooms,
           set_heap
             (mkHeap (protoMessages (heap w))
                (Obj.put name (Obj.put mid m ms) (fnMessages (heap w)))) w)
      | None => in_prototype
      end
  | Some (PrototypeMessages pm) =>
      match Obj.own "messages" pm with
      | Some _ => (Unmodelled, w)
      | None => in_prototype
      end
  end.
Proof.
  unfold put_message, bind. rewrite deref_spec.
  destruct (lookup (heap w) rooms r) as [target|]; [|reflexivity].
  js_unfold. cbv zeta.
  destruct target as [room| |name|pm].
  - destruct (messages room); [reflexivity|].
    destruct (protoMessages (heap w)); reflexivity.
  - destruct (protoMessages (heap w)); reflexivity.
  - destruct (Obj.own name (fnMessages (heap w))); [reflexivity|].
    destruct (protoMessages (heap w)); reflexivity.
  - destruct (Obj.own "messages" pm); [reflexivity|].
    destruct (protoMessages (heap w)); reflexivity.
Qed.

(** A send to a name that resolves without being an entry of the table
    writes into a built-in object and saves the table as it was read. *)
Lemma sendMessage_inherited (r u t : string) (env : SendEnv) (w : World) :
  Obj.own r (table_read w) = None ->
  resolves w r = true ->
  sendMessage r u t env w = (Unmodelled, after_read w) \/
  exists hp,
    sendMessage r u t env w =
    (Returned tt, after_save (table_read w) (set_heap hp (after_read w))).
Proof.
  intros Hown Hres.
  destruct (after_read_fields w) as (_ & _ & Hh & _).
  unfold sendMessage.
  rewrite (bind_returned _ _ _ _ _ (getRooms_spec w)).
  unfold resolves in Hres.
  unfold get_room. js_unfold. cbv beta. rewrite !Hh.
  destruct (lookup (heap w) (table_read w) r) as [target|] eqn:Hl;
    [clear Hres|discriminate].
  rewrite ensure_messages_spec, Hh, Hl.
  unfold lookup in Hl. rewrite Hown in Hl.
  destruct (String.eqb r "__proto__") eqn:E1.
  { inversion Hl; subst target. cbn [messages_of].
    destruct (protoMessages (heap w)) as [pm|] eqn:Hp; cbn [option_map];
      rewrite put_message_spec; cbv zeta;
      cbn [heap set_heap fnMessages protoMessages];
      unfold lookup; rewrite Hown, E1, ?Hh, ?Hp;
      rewrite saveRooms_spec; right; eexists; reflexivity. }
  destruct (is_inherited_function r) eqn:E2.
  { inversion Hl; subst target. cbn [messages_of].
    destruct (Obj.own r (fnMessages (heap w))) as [ms|] eqn:Hf;
      [|destruct (protoMessages (heap w)) as [pm|] eqn:Hp; cbn [option_map]];
      rewrite put_message_spec; cbv zeta;
      cbn [heap set_heap fnMessages protoMessages];
      unfold lookup; rewrite Hown, E1, E2, ?Hh, ?Hf, ?Hp,
        ?ObjFacts.own_put_same;
      rewrite saveRooms_spec; right; eexists; reflexivity. }
  destruct (String.eqb r "messages") eqn:E3; [|discriminate].
  destruct (protoMessages (heap w)) as [pm|] eqn:Hp; [|discriminate].
  inversion Hl; subst target. cbn [messages_of].
  destruct (Obj.own "messages" pm) as [cm|] eqn:Hc;
    rewrite put_message_spec; cbv zeta;
    unfold lookup; rewrite Hown, E1, E2, E3, ?Hh, ?Hp, ?Hc.
  - left. reflexivity.
  - rewrite saveRooms_spec. right. eexists. reflexivity.
Qed.

(** ** Rooms that are not there *)

(** For a name that the table read does not resolve, the existence check
    answers false and a send returns at once without touching the stored
    item. *)
Lemma unresolved_room_is_ignored (w : World) (r u t : string) (env : SendEnv) :
  resolves w r = false ->
  fst (checkRoomExists r w) = Returned false /\
  fst (sendMessage r u t env w) = Returned tt /\
  item (snd (sendMessage r u t env w)) = item w /\
  heap (snd (sendMessage r u t env w)) = heap w.
Proof.
  intros H. rewrite checkRoomExists_spec, sendMessage_unresolved, H by exact H.
  destruct (after_read_fields w) as (Hi & _ & Hh & _). cbn [fst snd]. auto.
Qed.

(** Every name inherited from [Object.prototype] resolves in every table. *)
Lemma inherited_name_resolves (w : World) (r : string) :
  r = "__proto__" \/ is_inherited_function r = true -> resolves w r = true.
Proof.
  unfold resolves, lookup. intros H.
  destruct (Obj.own r (table_read w)); [reflexivity|].
  destruct H as [->|H]; [reflexivity|].
  destruct (String.eqb r "__proto__"); [reflexivity|]. now rewrite H.
Qed.

(** C3 does not hold of the code.  "constructor" has no entry in the empty
    table, yet [rooms["constructor"]] is the function inherited from
    [Object.prototype], so the check answers true and a send goes past the
    guard and stores the message on that function. *)
Theorem checkRoomExists_inherited_name :
  let w := boot None Working in
  let env := mkSendEnv 1724000000000 1724000000000 [10; 11]%N in
  Obj.own "constructor" (stored_rooms w) = None /\
  checkRoomExists "constructor" w = (Returned true, w) /\
  fst (sendMessage "constructor" "Alice" "hi" env w) = Returned tt /\
  fnMessages (heap (snd (sendMessage "constructor" "Alice" "hi" env w))) =
    [("constructor",
      [("lzzt35kwab", mkMessage "lzzt35kwab" "Alice" "hi" 1724000000000)])].
Proof. vm_compute. repeat split. Qed.

(** ** Unreadable storage *)

(** A read that fails yields the empty table. *)
Lemma failed_read_is_empty (w : World) :
  read_fails w = true -> table_read w = [].
Proof.
  unfold read_fails, table_read, stored_rooms.
  destruct (device w); [| |reflexivity];
    destruct (item w) as [[| |rooms]|]; intros; congruence.
Qed.

(** With a pristine heap and a failed read, a name that is not inherited from
    [Object.prototype] does not exist, and every delivery is empty. *)
Lemma failed_read_degrades (w : World) (r : string) :
  read_fails w = true -> heap w = pristine ->
  message_list (heap w) (table_read w) r = [] /\
  (r <> "__proto__" -> is_inherited_function r = false ->
   fst (checkRoomExists r w) = Returned false).
Proof.
  intros Hf Hp. rewrite checkRoomExists_spec. unfold resolves, message_list.
  rewrite (failed_read_is_empty w Hf), Hp. unfold lookup. cbn [Obj.own].
  split.
  - destruct (String.eqb r "__proto__"); [reflexivity|].
    destruct (is_inherited_function r); [reflexivity|].
    destruct (String.eqb r "messages"); reflexivity.
  - intros H1 H2. apply String.eqb_neq in H1. rewrite H1, H2.
    destruct (String.eqb r "messages"); reflexivity.
Qed.

(** C6 does not hold of the code.  With a corrupt item the table is read as
    empty, but [checkRoomExists "constructor"] still answers true, because the
    empty table inherits that property. *)
Theorem checkRoomExists_corrupt_inherited_name :
  let w := boot (Some Corrupt) Working in
  table_read w = [] /\
  fst (checkRoomExists "constructor" w) = Returned true.
Proof. vm_compute. split; reflexivity. Qed.

(** ** The first delivery *)

(** [subscribeToMessages] calls the callback once before it returns, with
    the list computed from the table as read. *)
Lemma subscribe_delivers_first (w : World) (r : string) :
  let h := List.length (subs w) in
  fst (subscribeToMessages r w) = Returned h /\
  deliveries (snd (subscribeToMessages r w)) =
    (h, message_list (heap w) (table_read w) r) :: deliveries w /\
  nth_error (subs (snd (subscribeToMessages r w))) h =
    Some (mkSub r true true true).
Proof.
  cbv zeta. unfold subscribeToMessages, update_sub. js_unfold.
  rewrite checkMessages_spec. cbn [subs set_subs].
  rewrite nth_error_app2, Nat.sub_diag by apply Nat.le_refl.
  cbn [nth_error active subRoom fst snd].
  destruct (after_read_fields (set_subs (subs w ++ [mkSub r true false false])
                                 w)) as (_ & _ & _ & Hs & _ & Hd).
  cbn [deliveries add_delivery subs set_subs heap] in *.
  rewrite Hs. cbn [subs set_subs].
  repeat split.
  - now rewrite Hd.
  - clear. induction (subs w) as [|s rest IH]; [reflexivity|exact IH].
Qed.

(** With a pristine heap, the list is empty for a room that has no entry and
    for a room without messages. *)
Lemma message_list_empty (rooms : Rooms) (r : string) :
  (Obj.own r rooms = None \/
   exists room, Obj.own r rooms = Some room /\ room_messages room = []) ->
  message_list pristine rooms r = [].
Proof.
  unfold message_list, lookup. intros [H|(room & H & Hm)]; rewrite H.
  - destruct (String.eqb r "__proto__"); [reflexivity|].
    destruct (is_inherited_function r); [reflexivity|].
    destruct (String.eqb r "messages"); reflexivity.
  - unfold room_messages in Hm. cbn [messages_of].
    destruct (messages room); [subst; reflexivity|reflexivity].
Qed.

(** C5 does not hold of the code.  After a send to "constructor" (which is
    let through, see C3) the message sits on the inherited function; a later
    subscription to "constructor", a room with no entry in the table, is
    handed that message at once instead of the empty list. *)
Theorem subscribe_phantom_room :
  let env := mkSendEnv 1724000000000 1724000000000 [10; 11]%N in
  let w :=
    snd (sendMessage "constructor" "Alice" "hi" env (boot None Working)) in
  Obj.own "constructor" (stored_rooms w) = None /\
  deliveries (snd (subscribeToMessages "constructor" w)) =
    [(0, [VMsg (mkMessage "lzzt35kwab" "Alice" "hi" 1724000000000)])].
Proof. vm_compute. split; reflexivity. Qed.

(** ** Writes that fail *)

Lemma after_save_refused (rooms : Rooms) (w : World) :
  device w <> Working ->
  item (after_save rooms w) = item w /\
  alerts (after_save rooms w) = SAVE_ALERT :: alerts w.
Proof. unfold after_save. destruct (device w); [congruence| |]; auto. Qed.

Lemma sendMessage_cases (r u t : string) (env : SendEnv) (w : World) :
  (resolves w r = false /\
   sendMessage r u t env w = (Returned tt, after_read w)) \/
  sendMessage r u t env w = (Unmodelled, after_read w) \/
  exists rooms hp,
    sendMessage r u t env w =
      (Returned tt, after_save rooms (set_heap hp (after_read w))) /\
    forall r', r' <> r -> Obj.own r' rooms = Obj.own r' (table_read w).
Proof.
  destruct (resolves w r) eqn:Hres.
  2:{ left. split; [reflexivity|]. now apply sendMessage_unresolved. }
  right. destruct (Obj.own r (table_read w)) as [room|] eqn:Hown.
  - right. rewrite (sendMessage_own r u t env w room Hown).
    destruct (after_read_fields w) as (_ & _ & Hh & _).
    assert (Hid : forall x, set_heap (heap w) (after_read w) = x ->
                            x = after_read w)
      by (intros x <-; rewrite <- Hh; now destruct (after_read w)).
    destruct (messages room), (protoMessages (heap w));
      try (eexists; exists (heap w);
           rewrite (Hid _ eq_refl); split; [reflexivity|];
           intros r' Hr'; now apply ObjFacts.own_put_other).
    eexists; eexists; split; [reflexivity|]. reflexivity.
  - destruct (sendMessage_inherited r u t env w Hown Hres) as [H|[hp H]].
    + left. exact H.
    + right. exists (table_read w), hp. split; [exact H|reflexivity].
Qed.

(** C7.  When the storage refuses writes, [createRoom] still returns its
    normal answer (true exactly when [rooms[roomId]] was undefined) and
    [sendMessage] still returns; neither throws, the stored item stays as it
    was, and each attempted write shows up as one alert. *)
Theorem write_failure_is_contained (w : World) (r u t : string) (now : Z)
    (env : SendEnv) :
  device w <> Working ->
  let created := createRoom r now w in
  let sent := sendMessage r u t env w in
  fst created = Returned (negb (resolves w r)) /\
  item (snd created) = item w /\
  alerts (snd created) =
    (if resolves w r then alerts w else SAVE_ALERT :: alerts w) /\
  (forall e, fst sent <> Thrown e) /\
  item (snd sent) = item w /\
  (forall room, Obj.own r (table_read w) = Some room ->
     fst sent = Returned tt /\ alerts (snd sent) = SAVE_ALERT :: alerts w).
Proof.
  intros Hd. cbv zeta.
  destruct (after_read_fields w) as (Hi & Hdev & _ & _ & Ha & _).
  assert (Hd' : forall hp, device (set_heap hp (after_read w)) <> Working)
    by (intros hp; cbn [device set_heap]; now rewrite Hdev).
  rewrite createRoom_spec.
  assert (Hd0 : device (after_read w) <> Working) by now rewrite Hdev.
  split; [destruct (resolves w r); reflexivity|].
  split.
  { destruct (resolves w r); cbn [snd]; [exact Hi|].
    destruct (after_save_refused
                (Obj.put r (mkRoom now (Some [])) (table_read w))
                (after_read w) Hd0) as [-> _]. exact Hi. }
  split.
  { destruct (resolves w r); cbn [snd]; [exact Ha|].
    destruct (after_save_refused
                (Obj.put r (mkRoom now (Some [])) (table_read w))
                (after_read w) Hd0) as [_ ->]. now rewrite Ha. }
  destruct (sendMessage_cases r u t env w)
    as [[Hres H]|[H|(rooms & hp & H & _)]]; rewrite H; cbn [fst snd].
  - split; [discriminate|]. split; [exact Hi|].
    intros room Hown. apply resolves_own in Hown. congruence.
  - split; [discriminate|]. split; [exact Hi|].
    intros room Hown. rewrite (sendMessage_own r u t env w room Hown) in H.
    discriminate.
  - split; [discriminate|].
    destruct (after_save_refused rooms _ (Hd' hp)) as [Hi' Ha'].
    split; [rewrite Hi'; exact Hi|].
    intros _ _. split; [reflexivity|]. rewrite Ha'. cbn [alerts set_heap].
    now rewrite Ha.
Qed.

Lemma write_failure_is_contained_witness :
  let w := boot (Some (Document [("123456", mkRoom 5 (Some []))])) QuotaFull in
  let env := mkSendEnv 1724000000000 1724000000000 [10; 11]%N in
  fst (createRoom "654321" 7 w) = Returned true /\
  item (snd (createRoom "654321" 7 w)) = item w /\
  fst (sendMessage "123456" "Alice" "hi" env w) = Returned tt /\
  item (snd (sendMessage "123456" "Alice" "hi" env w)) = item w /\
  alerts (snd (sendMessage "123456" "Alice" "hi" env w)) = [SAVE_ALERT].
Proof.
  cbv zeta.
  pose proof (write_failure_is_contained
                (boot (Some (Document [("123456", mkRoom 5 (Some []))]))
                   QuotaFull)
                "654321" "Alice" "hi" 7
                (mkSendEnv 1724000000000 1724000000000 [10; 11]%N)
                ltac:(discriminate)) as (H1 & H2 & _).
  pose proof (write_failure_is_contained
                (boot (Some (Document [("123456", mkRoom 5 (Some []))]))
                   QuotaFull)
                "123456" "Alice" "hi" 7
                (mkSendEnv 1724000000000 1724000000000 [10; 11]%N)
                ltac:(discriminate)) as (_ & _ & _ & _ & H5 & H6).
  destruct (H6 (mkRoom 5 (Some [])) eq_refl) as [H7 H8].
  repeat split; assumption.
Defined.

(** ** Polling *)

Lemma tick_spec (h : nat) (w : World) (s : Subscription) :
  nth_error (subs w) h = Some s -> active s = true -> ticking s = true ->
  dispatch (TimerFires h) w =
  (Returned tt,
   add_delivery h (message_list (heap w) (table_read w) (subRoom s))
     (after_read w)).
Proof.
  intros Hs Ha Ht. unfold dispatch, when_sub. js_unfold.
  rewrite Hs, Ht, checkMessages_spec, Hs, Ha. reflexivity.
Qed.

(** The delivered list is computed from the stored item, the condition of
    the storage and the heap, and from nothing else. *)
Lemma message_list_determined (w w' : World) (r : string) :
  item w = item w' -> device w = device w' -> heap w = heap w' ->
  message_list (heap w) (table_read w) r
  = message_list (heap w') (table_read w') r.
Proof.
  intros Hi Hd Hh. unfold table_read, stored_rooms. now rewrite Hi, Hd, Hh.
Qed.

(** C8.  Two consecutive ticks of a live subscription, with nothing
    happening in between, hand the callback the same list; and so does a tick
    in any world that holds the same stored item, in the same condition of the
    storage, with the same properties on the built-in objects. *)
Theorem redelivery_is_identical (w : World) (h : nat) (s : Subscription) :
  nth_error (subs w) h = Some s -> active s = true -> ticking s = true ->
  let w1 := snd (dispatch (TimerFires h) w) in
  let w2 := snd (dispatch (TimerFires h) w1) in
  let l := message_list (heap w) (table_read w) (subRoom s) in
  fst (dispatch (TimerFires h) w) = Returned tt /\
  fst (dispatch (TimerFires h) w1) = Returned tt /\
  deliveries w1 = (h, l) :: deliveries w /\
  deliveries w2 = (h, l) :: deliveries w1 /\
  (forall w', item w' = item w -> device w' = device w -> heap w' = heap w ->
              nth_error (subs w') h = Some s ->
              deliveries (snd (dispatch (TimerFires h) w'))
              = (h, l) :: deliveries w').
Proof.
  intros Hs Ha Ht. cbv zeta.
  rewrite (tick_spec h w s Hs Ha Ht). cbn [fst snd].
  destruct (after_read_fields w) as (Hi & Hd & Hh & Hsub & _ & Hdel).
  set (l := message_list (heap w) (table_read w) (subRoom s)).
  set (w1 := add_delivery h l (after_read w)).
  assert (Hs1 : nth_error (subs w1) h = Some s)
    by (unfold w1; cbn [subs add_delivery]; now rewrite Hsub).
  rewrite (tick_spec h w1 s Hs1 Ha Ht). cbn [fst snd].
  assert (Hl : message_list (heap w1) (table_read w1) (subRoom s) = l)
    by (apply message_list_determined; unfold w1;
        cbn [item device heap add_delivery]; assumption).
  rewrite Hl.
  destruct (after_read_fields w1) as (_ & _ & _ & _ & _ & Hdel1).
  cbn [deliveries add_delivery]. rewrite Hdel1.
  unfold w1 at 1. cbn [deliveries add_delivery]. rewrite Hdel.
  repeat split; try reflexivity.
  intros w' Hi' Hd' Hh' Hs'.
  rewrite (tick_spec h w' s Hs' Ha Ht). cbn [snd deliveries add_delivery].
  destruct (after_read_fields w') as (_ & _ & _ & _ & _ & ->).
  now rewrite (message_list_determined w' w (subRoom s) Hi' Hd' Hh').
Qed.

Lemma redelivery_is_identical_witness :
  let w := snd (run [CallCreate "123456" 5; CallSubscribe "123456";
                     CallSend "123456" "Alice" "hi"
                       (mkSendEnv 1724000000000 1724000000000 [10; 11]%N)]
                  (boot None Working)) in
  let w1 := snd (dispatch (TimerFires 0) w) in
  let w2 := snd (dispatch (TimerFires 0) w1) in
  exists l, deliveries w1 = (0, l) :: deliveries w /\
            deliveries w2 = (0, l) :: deliveries w1.
Proof.
  cbv zeta. eexists.
  destruct (redelivery_is_identical
              (snd (run [CallCreate "123456" 5; CallSubscribe "123456";
                         CallSend "123456" "Alice" "hi"
                           (mkSendEnv 1724000000000 1724000000000
                              [10; 11]%N)]
                      (boot None Working)))
              0 (mkSub "123456" true true true) eq_refl eq_refl eq_refl)
    as (_ & _ & H1 & H2 & _).
  split; [exact H1|exact H2].
Defined.

(** ** The storage event *)

Lemma handleStorage_other_key (h : nat) (key : option string) (w : World) :
  key <> Some STORAGE_KEY -> handleStorage h key w = (Returned tt, w).
Proof.
  intros Hk. unfold handleStorage. destruct key as [k|]; [|reflexivity].
  destruct (String.eqb k STORAGE_KEY) eqn:E; [|reflexivity].
  apply String.eqb_eq in E. congruence.
Qed.

Lemma for_each_idle (hs : list nat) (f : nat -> JS unit) (w : World) :
  (forall h, f h w = (Returned tt, w)) -> for_each hs f w = (Returned tt, w).
Proof.
  intros Hf. induction hs as [|h rest IH]; [reflexivity|].
  cbn [for_each]. unfold bind. now rewrite Hf.
Qed.

(** C9.  The handler of the storage event runs [checkMessages] exactly when
    the event's key is [STORAGE_KEY] ("firechat_rooms"): on that key it is
    [checkMessages], which for a live subscription calls the callback once; on
    any other key, and on the null key, it does nothing, so a storage event
    for a foreign key leaves the whole world, deliveries included, as it
    was. *)
Theorem handleStorage_filters_key (w : World) (h : nat) (key : option string) :
  STORAGE_KEY = "firechat_rooms" /\
  (key = Some STORAGE_KEY -> handleStorage h key w = checkMessages h w) /\
  (key <> Some STORAGE_KEY ->
     handleStorage h key w = (Returned tt, w) /\
     dispatch (StorageEvent key) w = (Returned tt, w)) /\
  (forall s, nth_error (subs w) h = Some s -> active s = true ->
     (deliveries (snd (handleStorage h key w)) <> deliveries w
      <-> key = Some STORAGE_KEY)).
Proof.
  split; [reflexivity|]. split; [|split].
  - intros ->. unfold handleStorage. now rewrite String.eqb_refl.
  - intros Hk. split; [now apply handleStorage_other_key|].
    unfold dispatch. js_unfold. apply for_each_idle. intros h'.
    unfold when_sub. js_unfold.
    destruct (nth_error (subs w) h') as [s|]; [|reflexivity].
    destruct (listening s); [|reflexivity].
    now apply handleStorage_other_key.
  - intros s Hs Ha. split.
    + intros Hne. destruct key as [k|].
      * unfold handleStorage in Hne.
        destruct (String.eqb k STORAGE_KEY) eqn:E.
        -- apply String.eqb_eq in E. now subst.
        -- now elim Hne.
      * now elim Hne.
    + intros ->. unfold handleStorage. rewrite String.eqb_refl.
      rewrite checkMessages_spec, Hs, Ha. cbn [snd deliveries add_delivery].
      destruct (after_read_fields w) as (_ & _ & _ & _ & _ & ->).
      intros E. apply (f_equal (@List.length _)) in E. simpl in E. lia.
Qed.

Lemma handleStorage_filters_key_witness :
  let w := snd (run [CallCreate "123456" 5; CallSubscribe "123456"]
                  (boot None Working)) in
  handleStorage 0 (Some "other_key") w = (Returned tt, w) /\
  dispatch (StorageEvent (Some "other_key")) w = (Returned tt, w) /\
  handleStorage 0 (Some "firechat_rooms") w = checkMessages 0 w /\
  deliveries (snd (handleStorage 0 (Some "firechat_rooms") w))
    <> deliveries w.
Proof.
  cbv zeta.
  set (w := snd (run [CallCreate "123456" 5; CallSubscribe "123456"]
                   (boot None Working))).
  pose proof (handleStorage_filters_key w 0 (Some "other_key"))
    as (_ & _ & H2 & _).
  pose proof (handleStorage_filters_key w 0 (Some "firechat_rooms"))
    as (_ & H1 & _ & H3).
  destruct (H2 ltac:(discriminate)) as [Ha Hb].
  split; [exact Ha|]. split; [exact Hb|]. split; [exact (H1 eq_refl)|].
  exact (proj2 (H3 (mkSub "123456" true true true) eq_refl eq_refl) eq_refl).
Defined.

Lemma update_nth_last {A} (f : A -> A) (l : list A) (x : A) :
  update_nth (List.length l) f (l ++ [x]) = (l ++ [f x])%list.
Proof. induction l as [|y rest IH]; cbn; [reflexivity|now rewrite IH]. Qed.

Lemma after_read_set_subs (l : list Subscription) (w : World) :
  after_read (set_subs l w) = set_subs l (after_read w).
Proof.
  unfold after_read, read_fails. cbn.
  now destruct (device w), (item w) as [[]|].
Qed.

(** [subscribeToMessages] in closed form: one delivery, then the new closure
    with its interval and its listener in place. *)
Lemma subscribe_spec (r : string) (w : World) :
  subscribeToMessages r w =
  (Returned (List.length (subs w)),
   set_subs (subs (after_read w) ++ [mkSub r true true true])
     (add_delivery (List.length (subs w))
        (message_list (heap w) (table_read w) r) (after_read w))).
Proof.
  unfold subscribeToMessages, update_sub. js_unfold.
  rewrite checkMessages_spec. cbn [subs set_subs].
  rewrite nth_error_app2, Nat.sub_diag by apply Nat.le_refl.
  cbn [nth_error active subRoom fst snd].
  rewrite after_read_set_subs.
  destruct (after_read_fields w) as (_ & _ & _ & Hs & _).
  cbn [subs set_subs add_delivery heap]. rewrite !update_nth_last.
  cbn [subRoom active ticking listening]. rewrite Hs.
  unfold table_read, stored_rooms. reflexivity.
Qed.

(** ** Unsubscribing *)

Lemma keeps_bind (P : World -> Prop) {A B} (m : JS A) (k : A -> JS B) :
  keeps P m -> (forall a, keeps P (k a)) -> keeps P (bind m k).
Proof.
  intros Hm Hk w Hw. unfold bind. specialize (Hm w Hw).
  destruct (m w) as [[a|e|] w']; cbn [snd] in *; auto. now apply Hk.
Qed.

Lemma keeps_ret (P : World -> Prop) {A} (a : A) : keeps P (ret a).
Proof. intros w Hw. exact Hw. Qed.

Section Teardown.

Variable h : nat.
Variable seen : list (list Value).

Local Abbreviation silent := (silenced h seen).

Lemma silent_same_subs (w w' : World) :
  subs w' = subs w -> deliveries w' = deliveries w -> silent w -> silent w'.
Proof.
  unfold silenced, stopped, delivered_to. intros -> ->. auto.
Qed.

Lemma silent_after_read (w : World) : silent w -> silent (after_read w).
Proof.
  destruct (after_read_fields w) as (_ & _ & _ & Hs & _ & Hd).
  now apply silent_same_subs.
Qed.

Lemma silent_after_save (rooms : Rooms) (w : World) :
  silent w -> silent (after_save rooms w).
Proof.
  destruct (after_save_fields rooms w) as (_ & _ & Hs & Hd).
  now apply silent_same_subs.
Qed.

Lemma checkMessages_keeps (h' : nat) : keeps silent (checkMessages h').
Proof.
  intros w Hw. rewrite checkMessages_spec.
  destruct (nth_error (subs w) h') as [s|] eqn:Hs; [|exact Hw].
  destruct (active s) eqn:Ha; [|exact Hw]. cbn [snd].
  assert (Hne : Nat.eqb h' h = false).
  { apply Nat.eqb_neq. intros ->.
    destruct Hw as [(s' & Hs' & Ha' & _) _]. congruence. }
  apply silent_after_read in Hw. destruct Hw as [Hst Hd].
  split; [exact Hst|].
  unfold delivered_to in *. cbn [deliveries add_delivery filter fst].
  now rewrite Hne.
Qed.

Lemma handleStorage_keeps (h' : nat) (key : option string) :
  keeps silent (handleStorage h' key).
Proof.
  unfold handleStorage. destruct key as [k|]; [|apply keeps_ret].
  destruct (String.eqb k STORAGE_KEY);
    [apply checkMessages_keeps|apply keeps_ret].
Qed.

Lemma when_sub_keeps (h' : nat) (p : Subscription -> bool) (m : JS unit) :
  keeps silent m -> keeps silent (when_sub h' p m).
Proof.
  intros Hm w Hw. unfold when_sub. js_unfold.
  destruct (nth_error (subs w) h') as [s|]; [|exact Hw].
  destruct (p s); [now apply Hm|exact Hw].
Qed.

Lemma for_each_keeps (hs : list nat) (f : nat -> JS unit) :
  (forall h', keeps silent (f h')) -> keeps silent (for_each hs f).
Proof.
  intros Hf. induction hs as [|h' rest IH]; [apply keeps_ret|].
  cbn [for_each]. apply keeps_bind; auto.
Qed.

Lemma createRoom_keeps (r : string) (now : Z) :
  keeps silent (createRoom r now).
Proof.
  intros w Hw. rewrite createRoom_spec.
  destruct (resolves w r); cbn [snd].
  - now apply silent_after_read.
  - now apply silent_after_save, silent_after_read.
Qed.

Lemma checkRoomExists_keeps (r : string) : keeps silent (checkRoomExists r).
Proof.
  intros w Hw. rewrite checkRoomExists_spec. now apply silent_after_read.
Qed.

Lemma sendMessage_keeps (r u t : string) (env : SendEnv) :
  keeps silent (sendMessage r u t env).
Proof.
  intros w Hw. apply silent_after_read in Hw.
  destruct (sendMessage_cases r u t env w)
    as [[_ H]|[H|(rooms & hp & H & _)]]; rewrite H; cbn [snd]; auto.
  apply silent_after_save.
  revert Hw. apply silent_same_subs; reflexivity.
Qed.

Lemma nth_error_update_nth {A} (n n' : nat) (f : A -> A) (l : list A) :
  nth_error (update_nth n f l) n' =
  if Nat.eqb n n' then option_map f (nth_error l n') else nth_error l n'.
Proof.
  revert n n'. induction l as [|x rest IH]; intros [|n] [|n']; cbn;
    try reflexivity.
  - now destruct (Nat.eqb n n').
  - apply IH.
Qed.

Lemma update_sub_keeps (h' : nat) (f : Subscription -> Subscription) :
  (forall s, active s = false -> active (f s) = false) ->
  (forall s, ticking s = false -> ticking (f s) = false) ->
  (forall s, listening s = false -> listening (f s) = false) ->
  keeps silent (update_sub h' f).
Proof.
  intros Fa Ft Fl w [(s & Hs & Ha & Ht & Hl) Hd].
  unfold update_sub, modify. cbn [snd]. split; [|exact Hd].
  unfold stopped. cbn [subs set_subs]. rewrite nth_error_update_nth, Hs.
  destruct (Nat.eqb h' h); cbn [option_map].
  - exists (f s). auto.
  - exists s. auto.
Qed.

Lemma unsubscribe_keeps (h' : nat) : keeps silent (unsubscribe h').
Proof.
  unfold unsubscribe.
  repeat (apply keeps_bind; [|intros _]);
    apply update_sub_keeps; intros s; cbn; auto.
Qed.

Lemma subscribe_keeps (r : string) :
  keeps silent (subscribeToMessages r).
Proof.
  intros w Hw. rewrite subscribe_spec. cbn [snd].
  apply silent_after_read in Hw. destruct Hw as [(s & Hs & Hflags) Hd].
  assert (Hlt : h < List.length (subs (after_read w)))
    by (apply nth_error_Some; congruence).
  split.
  - exists s. split; [|exact Hflags]. cbn [subs set_subs add_delivery].
    now rewrite nth_error_app1.
  - unfold delivered_to in *. cbn [deliveries set_subs add_delivery filter fst].
    destruct (after_read_fields w) as (_ & _ & _ & Hsub & _).
    rewrite Hsub in Hlt.
    replace (Nat.eqb (List.length (subs w)) h) with false
      by (symmetry; apply Nat.eqb_neq; lia).
    exact Hd.
Qed.

Lemma dispatch_keeps (e : Event) : keeps silent (dispatch e).
Proof.
  destruct e as [h'|key|h'|r now|r|r u t env|r|h'|stored d]; cbn [dispatch].
  - apply when_sub_keeps, checkMessages_keeps.
  - apply keeps_bind; [intros w Hw; exact Hw|intros n].
    apply for_each_keeps. intros h'.
    apply when_sub_keeps, handleStorage_keeps.
  - apply checkMessages_keeps.
  - apply keeps_bind; [apply createRoom_keeps|intros _; apply keeps_ret].
  - apply keeps_bind; [apply checkRoomExists_keeps|intros _; apply keeps_ret].
  - apply sendMessage_keeps.
  - apply keeps_bind; [apply subscribe_keeps|intros _; apply keeps_ret].
  - apply unsubscribe_keeps.
  - intros w Hw. unfold modify. cbn [snd].
    revert Hw. apply silent_same_subs; reflexivity.
Qed.

Lemma run_keeps (es : list Event) : keeps silent (run es).
Proof.
  induction es as [|e rest IH]; [apply keeps_ret|].
  intros w Hw. cbn [run]. pose proof (dispatch_keeps e w Hw) as Hd.
  destruct (dispatch e w) as [[[]|x|] w']; cbn [snd] in *; auto.
Qed.

End Teardown.

Lemma unsubscribe_spec (h : nat) (w : World) (s : Subscription) :
  nth_error (subs w) h = Some s ->
  fst (unsubscribe h w) = Returned tt /\
  nth_error (subs (snd (unsubscribe h w))) h
    = Some (mkSub (subRoom s) false false false) /\
  deliveries (snd (unsubscribe h w)) = deliveries w.
Proof.
  intros Hs. unfold unsubscribe, update_sub. js_unfold.
  cbn [fst snd subs set_subs deliveries].
  rewrite !nth_error_update_nth, Nat.eqb_refl, Hs. cbn. auto.
Qed.

(** C4.  Let [h] be the handle of a subscription made earlier.  Invoking its
    unsubscribe function turns the liveness flag off, clears the interval and
    detaches the storage listener; from then on a check that was already due
    returns without calling the callback, and no sequence of later events
    (ticks, storage events, pending checks, sends, creations, new
    subscriptions, changes made by other tabs) adds a call to the callback of
    [h]. *)
Theorem unsubscribe_stops_deliveries (w : World) (h : nat) (es : list Event) :
  h < List.length (subs w) ->
  let w1 := snd (unsubscribe h w) in
  fst (unsubscribe h w) = Returned tt /\
  stopped h w1 /\
  checkMessages h w1 = (Returned tt, w1) /\
  delivered_to h w1 = delivered_to h w /\
  delivered_to h (snd (run es w1)) = delivered_to h w1.
Proof.
  intros Hlt. cbv zeta.
  destruct (nth_error (subs w) h) as [s|] eqn:Hs;
    [|apply nth_error_None in Hs; lia].
  destruct (unsubscribe_spec h w s Hs) as (Ho & Hs1 & Hd1).
  set (w1 := snd (unsubscribe h w)) in *.
  assert (Hst : stopped h w1) by (eexists; split; [exact Hs1|cbn; auto]).
  split; [exact Ho|]. split; [exact Hst|]. split; [|split].
  - rewrite checkMessages_spec, Hs1. reflexivity.
  - unfold delivered_to. now rewrite Hd1.
  - exact (proj2 (run_keeps h (delivered_to h w1) es w1 (conj Hst eq_refl))).
Qed.

Lemma unsubscribe_stops_deliveries_witness :
  let env := mkSendEnv 1724000000000 1724000000000 [10; 11]%N in
  let w := snd (run [CallCreate "123456" 5; CallSubscribe "123456"]
                  (boot None Working)) in
  let w1 := snd (unsubscribe 0 w) in
  delivered_to 0
    (snd (run [CallSend "123456" "Alice" "hi" env; TimerFires 0;
               StorageEvent (Some "firechat_rooms"); InFlight 0] w1))
  = [[]].
Proof.
  cbv zeta.
  refine (eq_trans
            (proj2 (proj2 (proj2 (proj2
               (unsubscribe_stops_deliveries _ 0 _ _)))))
            _).
  - vm_compute. lia.
  - reflexivity.
Defined.

(** ** What an operation leaves alone *)

Lemma stored_rooms_after_read (w : World) :
  stored_rooms (after_read w) = stored_rooms w.
Proof.
  unfold stored_rooms. destruct (after_read_fields w) as (-> & _). reflexivity.
Qed.

Lemma stored_rooms_after_save (rooms : Rooms) (w : World) :
  stored_rooms (after_save rooms w) =
  match device w with Working => rooms | _ => stored_rooms w end.
Proof. unfold after_save, stored_rooms. destruct (device w); reflexivity. Qed.

Lemma table_read_working (w : World) :
  device w = Working -> table_read w = stored_rooms w.
Proof. unfold table_read. now intros ->. Qed.

Lemma table_read_quota_full (w : World) :
  device w = QuotaFull -> table_read w = stored_rooms w.
Proof. unfold table_read. now intros ->. Qed.

(** C10, for the identifiers it holds for.  Neither [createRoom r] nor
    [sendMessage r] changes the stored entry of any other room; and a send to
    a stored room keeps the room's creation time and every message stored
    under an identifier other than the one generated for the new message. *)
Theorem operations_frame (w : World) (r u t : string) (now : Z)
    (env : SendEnv) :
  let wc := snd (createRoom r now w) in
  let ws := snd (sendMessage r u t env w) in
  (forall r', r' <> r ->
     Obj.own r' (stored_rooms wc) = Obj.own r' (stored_rooms w)) /\
  (forall r', r' <> r ->
     Obj.own r' (stored_rooms ws) = Obj.own r' (stored_rooms w)) /\
  (forall room, Obj.own r (stored_rooms w) = Some room ->
     exists room',
       Obj.own r (stored_rooms ws) = Some room' /\
       createdAt room' = createdAt room /\
       forall mid m, mid <> messageIdOf env ->
                     Obj.own mid (room_messages room) = Some m ->
                     Obj.own mid (room_messages room') = Some m).
Proof.
  cbv zeta.
  destruct (after_read_fields w) as (_ & Hdev & Hh & _).
  split; [|split].
  - intros r' Hne. rewrite createRoom_spec.
    destruct (resolves w r); cbn [snd].
    + now rewrite stored_rooms_after_read.
    + rewrite stored_rooms_after_save, Hdev.
      destruct (device w) eqn:Hd; rewrite ?stored_rooms_after_read; auto.
      rewrite ObjFacts.own_put_other by exact Hne.
      now rewrite table_read_working.
  - intros r' Hne.
    destruct (sendMessage_cases r u t env w)
      as [[_ H]|[H|(rooms & hp & H & Hframe)]]; rewrite H; cbn [snd];
      rewrite ?stored_rooms_after_read; auto.
    rewrite stored_rooms_after_save. cbn [device set_heap]. rewrite Hdev.
    change (stored_rooms (set_heap hp (after_read w)))
      with (stored_rooms (after_read w)).
    destruct (device w) eqn:Hd; rewrite ?stored_rooms_after_read; auto.
    rewrite Hframe by exact Hne. now rewrite table_read_working.
  - intros room Hown.
    destruct (device w) eqn:Hd.
    + assert (Hown' : Obj.own r (table_read w) = Some room)
        by now rewrite table_read_working.
      rewrite (sendMessage_own r u t env w room Hown'). cbn [snd].
      destruct (messages room) as [ms|] eqn:Hm;
        [|destruct (protoMessages (heap w)) as [pm|]];
        rewrite stored_rooms_after_save; cbn [device set_heap];
        rewrite Hdev.
      1,3: eexists; split; [apply ObjFacts.own_put_same|];
           split; [reflexivity|]; intros mid m Hne Hmid;
           unfold room_messages at 1; cbn [messages];
           now rewrite ObjFacts.own_put_other.
      exists room. rewrite (table_read_working w Hd). auto.
    + assert (Hown' : Obj.own r (table_read w) = Some room)
        by now rewrite table_read_quota_full.
      rewrite (sendMessage_own r u t env w room Hown'). cbn [snd].
      exists room. split; [|auto].
      destruct (messages room), (protoMessages (heap w));
        rewrite stored_rooms_after_save; cbn [device set_heap];
        rewrite Hdev;
        try match goal with
            | |- context [stored_rooms (set_heap ?hp ?x)] =>
                change (stored_rooms (set_heap hp x)) with (stored_rooms x)
            end;
        rewrite stored_rooms_after_read; exact Hown.
    + exists room. split; [|auto].
      destruct (sendMessage_cases r u t env w)
        as [[_ H]|[H|(rooms & hp & H & _)]]; rewrite H; cbn [snd];
        rewrite ?stored_rooms_after_read; auto.
      rewrite stored_rooms_after_save. cbn [device set_heap].
      rewrite Hdev.
      change (stored_rooms (set_heap hp (after_read w)))
        with (stored_rooms (after_read w)).
      now rewrite stored_rooms_after_read.
Qed.

Lemma operations_frame_witness :
  let env := mkSendEnv 1724000000000 1724000000000 [10; 11]%N in
  let old := mkMessage "lzzt35kw00" "Bob" "yo" 1724000000000 in
  let w :=
    boot (Some (Document
                  [("123456", mkRoom 5 (Some [("lzzt35kw00", old)]));
                   ("654321", mkRoom 6 (Some []))])) Working in
  let ws := snd (sendMessage "123456" "Alice" "hi" env w) in
  Obj.own "654321" (stored_rooms ws) = Some (mkRoom 6 (Some [])) /\
  exists room',
    Obj.own "123456" (stored_rooms ws) = Some room' /\
    createdAt room' = 5%Z /\
    Obj.own "lzzt35kw00" (room_messages room') = Some old.
Proof.
  cbv zeta.
  set (env := mkSendEnv 1724000000000 1724000000000 [10; 11]%N).
  set (old := mkMessage "lzzt35kw00" "Bob" "yo" 1724000000000).
  set (w := boot _ Working).
  destruct (operations_frame w "123456" "Alice" "hi" 0 env)
    as (_ & Hothers & Hroom).
  split.
  - rewrite (Hothers "654321" ltac:(discriminate)). reflexivity.
  - destruct (Hroom (mkRoom 5 (Some [("lzzt35kw00", old)])) eq_refl)
      as (room' & H1 & H2 & H3).
    exists room'. split; [exact H1|]. split; [exact H2|].
    apply H3; [discriminate|reflexivity].
Defined.

(** C10 fails as worded: a send whose generated identifier is already in use
    in the room replaces the message stored under it. *)
Lemma send_frame_refuted :
  let env := mkSendEnv 1724000000000 1724000000000 [10; 11]%N in
  let old := mkMessage "lzzt35kwab" "Alice" "hi" 1724000000000 in
  ~ send_frame_spec
      (boot (Some (Document
                     [("123456", mkRoom 5 (Some [("lzzt35kwab", old)]))]))
         Working)
      "123456" "Bob" "yo" env.
Proof.
  cbv zeta. intros H.
  destruct (H _ eq_refl) as (_ & room' & Hown & _ & Hkeep).
  specialize (Hkeep "lzzt35kwab" _ eq_refl).
  vm_compute in Hown. injection Hown as <-.
  vm_compute in Hkeep. discriminate.
Qed.

(** ** Sorting *)

Lemma insert_by_timestamp_perm (m : ChatMessage) (l : list ChatMessage) :
  Permutation (insert_by_timestamp m l) (m :: l).
Proof.
  induction l as [|x rest IH]; cbn; [reflexivity|].
  destruct (timestamp m <=? timestamp x)%Z; [reflexivity|].
  rewrite IH. apply perm_swap.
Qed.

Lemma sort_by_timestamp_perm (l : list ChatMessage) :
  Permutation (sort_by_timestamp l) l.
Proof.
  induction l as [|m rest IH]; cbn; [reflexivity|].
  rewrite insert_by_timestamp_perm. now constructor.
Qed.

Lemma insert_by_timestamp_sorted (m : ChatMessage) (l : list ChatMessage) :
  StronglySorted by_timestamp l ->
  StronglySorted by_timestamp (insert_by_timestamp m l).
Proof.
  induction 1 as [|x rest Hrest IH Hx]; cbn.
  - repeat constructor.
  - destruct (timestamp m <=? timestamp x)%Z eqn:E.
    + apply Z.leb_le in E. constructor; [now constructor|].
      constructor; [exact E|].
      eapply Forall_impl; [|exact Hx]. unfold by_timestamp. intros; lia.
    + apply Z.leb_gt in E. constructor; [exact IH|].
      rewrite insert_by_timestamp_perm.
      constructor; [unfold by_timestamp; lia|exact Hx].
Qed.

Lemma sort_by_timestamp_sorted (l : list ChatMessage) :
  StronglySorted by_timestamp (sort_by_timestamp l).
Proof.
  induction l as [|m rest IH]; cbn; [constructor|].
  now apply insert_by_timestamp_sorted.
Qed.

(** The sort keeps messages with equal timestamps in the order they had. *)
Lemma insert_by_timestamp_front (m : ChatMessage) (l : list ChatMessage) :
  Forall (by_timestamp m) l -> insert_by_timestamp m l = m :: l.
Proof.
  destruct l as [|x rest]; [reflexivity|]. intros H. cbn.
  apply Forall_inv in H. unfold by_timestamp in H.
  apply Z.leb_le in H. now rewrite H.
Qed.

Lemma sort_by_timestamp_sorted_input (l : list ChatMessage) :
  StronglySorted by_timestamp l -> sort_by_timestamp l = l.
Proof.
  induction 1 as [|x rest Hrest IH Hx]; [reflexivity|].
  change (sort_by_timestamp (x :: rest))
    with (insert_by_timestamp x (sort_by_timestamp rest)).
  rewrite IH. now apply insert_by_timestamp_front.
Qed.

(** ** Sends and what a subscription then delivers *)

Lemma stored_room_document (w : World) (r : string) (room : RoomData) :
  Obj.own r (stored_rooms w) = Some room ->
  item w = Some (Document (stored_rooms w)).
Proof.
  unfold stored_rooms. destruct (item w) as [[| |rooms]|]; cbn;
    intros H; try discriminate. reflexivity.
Qed.

(** One send to a stored room while the storage works. *)
Lemma send_step (w : World) (r u t : string) (env : SendEnv) (room : RoomData) :
  device w = Working ->
  Obj.own r (stored_rooms w) = Some room ->
  (messages room = None -> protoMessages (heap w) = None) ->
  sendMessage r u t env w =
  (Returned tt,
   set_item
     (Some (Document
        (Obj.put r
           (mkRoom (createdAt room)
              (Some (Obj.put (messageIdOf env) (newMessageOf u t env)
                       (room_messages room))))
           (stored_rooms w))))
     w).
Proof.
  intros Hd Hown Hp.
  assert (Hr : after_read w = w).
  { apply after_read_working; [exact Hd|].
    eexists. exact (stored_room_document w r room Hown). }
  assert (Hown' : Obj.own r (table_read w) = Some room)
    by now rewrite table_read_working.
  rewrite (sendMessage_own r u t env w room Hown'), Hr.
  rewrite (table_read_working w Hd).
  assert (Hs : forall rooms, after_save rooms w
                             = set_item (Some (Document rooms)) w)
    by (intros; unfold after_save; now rewrite Hd).
  destruct (messages room) eqn:Hm; [now rewrite Hs|].
  rewrite (Hp eq_refl). now rewrite Hs.
Qed.

Lemma sends_accumulate (r : string) (calls : list SendCall) :
  forall (w : World) (room : RoomData),
    device w = Working ->
    Obj.own r (stored_rooms w) = Some room ->
    (messages room = None -> protoMessages (heap w) = None) ->
    NoDup (sent_ids calls) ->
    (forall i, In i (sent_ids calls) ->
               Obj.own i (room_messages room) = None) ->
    exists w' room',
      run (send_events r calls) w = (Returned tt, w') /\
      device w' = Working /\ heap w' = heap w /\ subs w' = subs w /\
      deliveries w' = deliveries w /\
      Obj.own r (stored_rooms w') = Some room' /\
      (messages room' = None -> protoMessages (heap w') = None) /\
      createdAt room' = createdAt room /\
      Permutation (Obj.values (room_messages room'))
        (Obj.values (room_messages room) ++ sent_messages calls).
Proof.
  induction calls as [|c rest IH]; intros w room Hd Hown Hp Hnd Hfresh.
  - exists w, room. cbn. rewrite app_nil_r. repeat split; auto.
  - cbn [send_events map run dispatch].
    set (mid := messageIdOf (answers c)).
    set (m := newMessageOf (sender c) (body c) (answers c)).
    set (room1 := mkRoom (createdAt room)
                    (Some (Obj.put mid m (room_messages room)))).
    set (w1 := set_item
                 (Some (Document (Obj.put r room1 (stored_rooms w)))) w).
    rewrite (send_step w r (sender c) (body c) (answers c) room Hd Hown Hp).
    fold mid m room1 w1.
    cbn [sent_ids map] in Hnd, Hfresh. fold (sent_ids rest) in Hnd, Hfresh.
    inversion Hnd as [|? ? Hnotin Hnd']; subst.
    assert (Hown1 : Obj.own r (stored_rooms w1) = Some room1)
      by (unfold w1, stored_rooms; cbn [item set_item];
          apply ObjFacts.own_put_same).
    destruct (IH w1 room1 Hd Hown1 ltac:(discriminate) Hnd')
      as (w' & room' & Hrun & Hd' & Hh' & Hs' & Hdl' & Hown' & Hp' & Hc'
          & Hperm).
    { intros i Hi. unfold room1, room_messages at 1. cbn [messages].
      rewrite ObjFacts.own_put_other.
      - apply Hfresh. now right.
      - intros ->. contradiction. }
    exists w', room'. fold (send_events r rest).
    repeat split; auto.
    rewrite Hperm. unfold room1, room_messages at 1. cbn [messages].
    rewrite (ObjFacts.values_put_fresh mid m (room_messages room))
      by (apply Hfresh; now left).
    cbn [sent_messages map]. fold (sent_messages rest). fold m.
    apply Permutation_middle.
Qed.

(** [all_return] read task by task: each task of the run, started in the
    world the tasks before it left, returns. *)
Lemma all_return_each (es : list Event) (w : World) :
  all_return es w = true ->
  forall before e after,
    es = (before ++ e :: after)%list ->
    fst (dispatch e (snd (run before w))) = Returned tt.
Proof.
  intros Hall before. revert es w Hall.
  induction before as [|b rest IH]; intros es w Hall e after ->;
    cbn [app all_return run] in *.
  - change (snd (ret tt w)) with w.
    destruct (dispatch e w) as [[[]| |] w']; try discriminate. reflexivity.
  - destruct (dispatch b w) as [[[]| |] w']; try discriminate.
    now apply (IH _ w' Hall e after).
Qed.

(** Each send of such a sequence returns. *)
Lemma sends_all_return (r : string) (calls : list SendCall) :
  forall (w : World) (room : RoomData),
    device w = Working ->
    Obj.own r (stored_rooms w) = Some room ->
    (messages room = None -> protoMessages (heap w) = None) ->
    all_return (send_events r calls) w = true.
Proof.
  induction calls as [|c rest IH]; intros w room Hd Hown Hp; [reflexivity|].
  cbn [send_events map all_return dispatch].
  rewrite (send_step w r (sender c) (body c) (answers c) room Hd Hown Hp).
  fold (send_events r rest).
  eapply IH.
  - exact Hd.
  - unfold stored_rooms. cbn [item set_item]. apply ObjFacts.own_put_same.
  - discriminate.
Qed.

(** The list handed over for a stored room whose messages do not come from
    [Object.prototype]. *)
Lemma message_list_own (hp : Heap) (rooms : Rooms) (r : string)
    (room : RoomData) :
  Obj.own r rooms = Some room ->
  (messages room = None -> protoMessages hp = None) ->
  message_list hp rooms r
  = map VMsg (sort_by_timestamp (Obj.values (room_messages room))).
Proof.
  intros Hown Hp. unfold message_list. rewrite (lookup_own hp _ _ _ Hown).
  cbn [messages_of]. unfold room_messages.
  destruct (messages room); [reflexivity|]. now rewrite (Hp eq_refl).
Qed.

(** C2, with its side conditions.  Take a stored room, a live subscription
    to it, and a sequence of sends to the room whose generated identifiers
    differ from one another and from those already in the room, all while the
    storage works (and, should the room have no [messages] object yet, while
    [Object.prototype] has none either).  Then every send returns (each
    call of the sequence, not only the run as a whole), and the list the
    subscription hands over next is sorted by timestamp and is a
    rearrangement of the messages the room held before together with the
    messages sent. *)
Theorem delivery_after_sends (w : World) (r : string) (h : nat)
    (s : Subscription) (room : RoomData) (calls : list SendCall) :
  device w = Working ->
  Obj.own r (stored_rooms w) = Some room ->
  (messages room = None -> protoMessages (heap w) = None) ->
  nth_error (subs w) h = Some s -> active s = true -> subRoom s = r ->
  NoDup (sent_ids calls) ->
  (forall i, In i (sent_ids calls) -> Obj.own i (room_messages room) = None) ->
  let w1 := snd (run (send_events r calls) w) in
  let w2 := snd (checkMessages h w1) in
  all_return (send_events r calls) w = true /\
  fst (run (send_events r calls) w) = Returned tt /\
  exists l,
    deliveries w2 = (h, map VMsg l) :: deliveries w1 /\
    StronglySorted by_timestamp l /\
    Permutation l (Obj.values (room_messages room) ++ sent_messages calls) /\
    forall m, In m l <->
              In m (Obj.values (room_messages room)) \/
              In m (sent_messages calls).
Proof.
  intros Hd Hown Hp Hs Ha Hr Hnd Hfresh. cbv zeta.
  split; [exact (sends_all_return r calls w room Hd Hown Hp)|].
  destruct (sends_accumulate r calls w room Hd Hown Hp Hnd Hfresh)
    as (w' & room' & Hrun & Hd' & Hh' & Hs' & Hdl' & Hown' & Hp' & _ & Hperm).
  rewrite Hrun. cbn [fst snd]. split; [reflexivity|].
  exists (sort_by_timestamp (Obj.values (room_messages room'))).
  assert (Hperm' : Permutation
                     (sort_by_timestamp (Obj.values (room_messages room')))
                     (Obj.values (room_messages room) ++ sent_messages calls))
    by (rewrite sort_by_timestamp_perm; exact Hperm).
  split; [|split; [apply sort_by_timestamp_sorted|split; [exact Hperm'|]]].
  - rewrite checkMessages_spec, Hs', Hs, Ha, Hr.
    cbn [snd deliveries add_delivery].
    destruct (after_read_fields w') as (_ & _ & _ & _ & _ & ->).
    rewrite (message_list_own (heap w') (table_read w') r room'); auto.
    now rewrite table_read_working.
  - intros m. rewrite <- in_app_iff. split; intros Hin.
    + eapply Permutation_in; [exact Hperm'|exact Hin].
    + eapply Permutation_in; [symmetry; exact Hperm'|exact Hin].
Qed.

Lemma delivery_after_sends_witness :
  let w := snd (run [CallCreate "123456" 5; CallSubscribe "123456"]
                  (boot None Working)) in
  let calls :=
    [mkSendCall "Alice" "hi" (mkSendEnv 1724000000000 1724000000000 [10; 11]%N);
     mkSendCall "Bob" "yo" (mkSendEnv 1724000000005 1724000000005 [1; 2]%N)] in
  let w1 := snd (run (send_events "123456" calls) w) in
  all_return (send_events "123456" calls) w = true /\
  exists l,
    deliveries (snd (checkMessages 0 w1)) = (0, map VMsg l) :: deliveries w1 /\
    StronglySorted by_timestamp l /\
    Permutation l (sent_messages calls).
Proof.
  cbv zeta.
  edestruct (delivery_after_sends
               (snd (run [CallCreate "123456" 5; CallSubscribe "123456"]
                       (boot None Working)))
               "123456" 0 (mkSub "123456" true true true)
               (mkRoom 5 (Some [])))
    as (Hall & _ & l & Hdel & Hsorted & Hperm & _).
  - reflexivity.
  - reflexivity.
  - discriminate.
  - reflexivity.
  - reflexivity.
  - reflexivity.
  - shelve.
  - shelve.
  - split; [exact Hall|].
    exists l. split; [exact Hdel|]. split; [exact Hsorted|exact Hperm].
  Unshelve.
  + vm_compute. constructor; [|constructor; [|constructor]].
    * intros [H|[]]. discriminate.
    * intros [].
  + intros i _. reflexivity.
Defined.

(** C2 fails as worded: two sends that draw the same identifier (the same
    clock reading and the same random digits) leave one message in the room,
    so the list handed over lacks the first of the two messages sent; and a
    send made while the storage refuses writes leaves nothing in the room, so
    the list handed over is empty. *)
Lemma delivery_after_sends_refuted :
  let w := snd (run [CallCreate "123456" 5; CallSubscribe "123456"]
                  (boot None Working)) in
  let env := mkSendEnv 1724000000000 1724000000000 [10; 11]%N in
  ~ delivery_after_sends_spec w "123456" 0
      [mkSendCall "Alice" "hi" env; mkSendCall "Bob" "yo" env] /\
  ~ delivery_after_sends_spec (set_device QuotaFull w) "123456" 0
      [mkSendCall "Alice" "hi" env].
Proof.
  cbv zeta. split; intros (l & Hdel & _ & Hin);
    vm_compute in Hdel; injection Hdel as Hl;
    specialize (Hin (mkMessage "lzzt35kwab" "Alice" "hi" 1724000000000));
    destruct Hin as [_ Hin].
  - destruct l as [|x [|y l']]; try discriminate.
    injection Hl as Hx. subst x.
    destruct Hin as [H|[]]; [left; reflexivity|discriminate].
  - destruct l; [|discriminate].
    destruct Hin; left; reflexivity.
Qed.

(** ** The stored table stays a table *)

Lemma well_formed_put (rooms : Rooms) (r : string) (room : RoomData) :
  well_formed rooms -> Obj.canonical (room_messages room) ->
  well_formed (Obj.put r room rooms).
Proof.
  intros [Hc Hm] Hroom. split; [now apply ObjFacts.put_canonical|].
  intros r' room' Hown.
  destruct (String.eqb r' r) eqn:E.
  - apply String.eqb_eq in E. subst r'.
    rewrite ObjFacts.own_put_same in Hown. now injection Hown as <-.
  - apply String.eqb_neq in E.
    rewrite ObjFacts.own_put_other in Hown by exact E. eauto.
Qed.

Lemma well_formed_after_save (rooms : Rooms) (w : World) :
  well_formed rooms -> well_formed (stored_rooms w) ->
  well_formed (stored_rooms (after_save rooms w)).
Proof.
  intros Hr Hw. rewrite stored_rooms_after_save. now destruct (device w).
Qed.

Lemma well_formed_table_read (w : World) :
  well_formed (stored_rooms w) -> well_formed (table_read w).
Proof.
  unfold table_read. destruct (device w); auto.
  intros _. split; [apply ObjFacts.canonical_empty|discriminate].
Qed.

(** What the services write is again a table that [JSON.parse] can yield, so
    that keeping the parsed table in place of the text loses nothing. *)
Lemma stored_table_stays_well_formed (w : World) (r u t : string) (now : Z)
    (env : SendEnv) :
  well_formed (stored_rooms w) ->
  well_formed (stored_rooms (snd (createRoom r now w))) /\
  well_formed (stored_rooms (snd (sendMessage r u t env w))).
Proof.
  intros Hw. pose proof (well_formed_table_read w Hw) as Ht.
  assert (Hw' : forall hp,
             well_formed (stored_rooms (set_heap hp (after_read w))))
    by (intros hp;
        change (stored_rooms (set_heap hp (after_read w)))
          with (stored_rooms (after_read w));
        now rewrite stored_rooms_after_read).
  assert (Hw0 : well_formed (stored_rooms (after_read w)))
    by now rewrite stored_rooms_after_read.
  split.
  - rewrite createRoom_spec. destruct (resolves w r); cbn [snd]; [exact Hw0|].
    apply well_formed_after_save; [|exact Hw0].
    apply well_formed_put; [exact Ht|apply ObjFacts.canonical_empty].
  - destruct (Obj.own r (table_read w)) as [room|] eqn:Hown.
    + rewrite (sendMessage_own r u t env w room Hown). cbn [snd].
      assert (Hput : well_formed
                       (Obj.put r
                          (mkRoom (createdAt room)
                             (Some (Obj.put (messageIdOf env)
                                      (newMessageOf u t env)
                                      (room_messages room))))
                          (table_read w))).
      { apply well_formed_put; [exact Ht|].
        unfold room_messages at 1. cbn [messages].
        apply ObjFacts.put_canonical. destruct Ht as [_ Hm]. eauto. }
      destruct (messages room), (protoMessages (heap w));
        apply well_formed_after_save; auto.
    + destruct (resolves w r) eqn:Hres.
      * destruct (sendMessage_inherited r u t env w Hown Hres) as [H|[hp H]];
          rewrite H; cbn [snd]; [exact Hw0|].
        apply well_formed_after_save; auto.
      * rewrite (sendMessage_unresolved r u t env w Hres). exact Hw0.
Qed.

(** ** The walk-through of the specification *)

(** Room "123456" is created once; Alice's message is delivered at the next
    tick, and Bob's later message after it. *)
Example scenario_walkthrough :
  let alice := mkSendEnv 1724000000000 1724000000000 [10; 11]%N in
  let bob := mkSendEnv 1724000000005 1724000000005 [1; 2]%N in
  let hi := mkMessage "lzzt35kwab" "Alice" "hi" 1724000000000 in
  let yo := mkMessage "lzzt35l112" "Bob" "yo" 1724000000005 in
  let w0 := boot None Working in
  let w1 := snd (createRoom "123456" 5 w0) in
  let w2 := snd (run [CallSubscribe "123456";
                      CallSend "123456" "Alice" "hi" alice; TimerFires 0;
                      CallSend "123456" "Bob" "yo" bob; TimerFires 0] w1) in
  fst (createRoom "123456" 5 w0) = Returned true /\
  fst (createRoom "123456" 6 w1) = Returned false /\
  delivered_to 0 w2 = [[VMsg hi; VMsg yo]; [VMsg hi]; []].
Proof. vm_compute. repeat split. Qed.

(** * Further properties *)

(** ** Decimal numerals and array indices *)

Module Radix10Facts.
Import Radix10.

Lemma digit_of_digit (d : N) : (d < 10)%N -> Obj.digit_of (digit d) = Some d.
Proof.
  intros Hd. unfold digit, Obj.digit_of. rewrite N_ascii_embedding by lia.
  replace (48 <=? 48 + d)%N with true by (symmetry; apply N.leb_le; lia).
  replace (48 + d <=? 57)%N with true by (symmetry; apply N.leb_le; lia).
  cbn [andb]. f_equal. lia.
Qed.

Lemma digits_value_digits (fuel : nat) :
  forall (n : N) (acc : string),
    (n < 2 ^ N.of_nat fuel)%N ->
    Obj.digits_value 0 (digits fuel n acc) = Obj.digits_value n acc.
Proof.
  induction fuel as [|fuel IH]; intros n acc Hn.
  - cbn in Hn. assert (n = 0%N) by lia. subst. reflexivity.
  - cbn [digits].
    assert (Hmod : (n mod 10 < 10)%N) by (apply N.mod_lt; lia).
    pose proof (N.div_mod n 10 ltac:(lia)) as Hdm.
    destruct (n / 10 =? 0)%N eqn:E.
    + apply N.eqb_eq in E. cbn [Obj.digits_value].
      rewrite digit_of_digit by exact Hmod. f_equal. lia.
    + rewrite IH.
      * cbn [Obj.digits_value]. rewrite digit_of_digit by exact Hmod.
        f_equal. lia.
      * rewrite Nat2N.inj_succ, N.pow_succ_r' in Hn.
        apply N.Div0.div_lt_upper_bound. lia.
Qed.

Lemma digits_value_of_N (n : N) : Obj.digits_value 0 (of_N n) = Some n.
Proof.
  unfold of_N. rewrite digits_value_digits; [reflexivity|].
  rewrite Nat2N.inj_succ, N2Nat.id, N.pow_succ_r'.
  pose proof (N.size_gt n). lia.
Qed.

(** The numeral of a positive number does not begin with a zero. *)
Lemma digits_head (fuel : nat) :
  forall (n : N) (acc : string),
    (0 < n)%N -> (n < 2 ^ N.of_nat fuel)%N ->
    exists d rest, digits fuel n acc = String (digit d) rest /\
                   (0 < d < 10)%N.
Proof.
  induction fuel as [|fuel IH]; intros n acc Hpos Hn.
  - cbn in Hn. lia.
  - cbn [digits].
    assert (Hmod : (n mod 10 < 10)%N) by (apply N.mod_lt; lia).
    pose proof (N.div_mod n 10 ltac:(lia)) as Hdm.
    destruct (n / 10 =? 0)%N eqn:E.
    + apply N.eqb_eq in E. rewrite E in Hdm. exists (n mod 10)%N, acc.
      split; [reflexivity|lia].
    + apply N.eqb_neq in E. apply IH; [lia|].
      rewrite Nat2N.inj_succ, N.pow_succ_r' in Hn.
      apply N.Div0.div_lt_upper_bound. lia.
Qed.

Lemma digit_not_zero (d : N) :
  (0 < d < 10)%N -> Ascii.eqb (digit d) "0"%char = false.
Proof.
  intros Hd. apply Ascii.eqb_neq. intros H.
  apply (f_equal N_of_ascii) in H. unfold digit in H.
  rewrite N_ascii_embedding in H by lia.
  change (N_of_ascii "0") with 48%N in H. lia.
Qed.

(** Round trip: the decimal numeral of an integer below 2^32 - 1 is the key
    that JavaScript treats as that array index. *)
Lemma array_index_of_N (n : N) :
  (n < 4294967295)%N -> Obj.array_index (of_N n) = Some n.
Proof.
  intros Hn. destruct (N.eq_dec n 0) as [->|Hpos]; [reflexivity|].
  pose proof (digits_value_of_N n) as Hv.
  destruct (digits_head (S (N.to_nat (N.size n))) n "") as (d & rest & Hd & Hr).
  - lia.
  - rewrite Nat2N.inj_succ, N2Nat.id, N.pow_succ_r'.
    pose proof (N.size_gt n). lia.
  - fold (of_N n) in Hd. unfold Obj.array_index. rewrite Hd in *.
    rewrite (digit_not_zero d Hr). cbn [andb]. rewrite Hv.
    apply N.ltb_lt in Hn. now rewrite Hn.
Qed.

End Radix10Facts.

(** ** Numeric room identifiers *)

Lemma inherited_names_are_not_indices (r : string) :
  is_inherited_function r = true -> Obj.array_index r = None.
Proof.
  unfold is_inherited_function, inheritedFunctions. cbn [existsb].
  repeat (destruct (String.eqb r _) eqn:E;
          [apply String.eqb_eq in E; subst; reflexivity|clear E]).
  discriminate.
Qed.

(** For a key that is an array index, [rooms[roomId]] finds an entry of the
    table or nothing: no inherited property is in the way. *)
Lemma lookup_array_index (hp : Heap) (rooms : Rooms) (r : string) (i : N) :
  Obj.array_index r = Some i ->
  lookup hp rooms r = option_map OwnRoom (Obj.own r rooms).
Proof.
  intros Hi. unfold lookup. destruct (Obj.own r rooms); [reflexivity|].
  destruct (String.eqb r "__proto__") eqn:E1;
    [apply String.eqb_eq in E1; subst; discriminate|].
  destruct (is_inherited_function r) eqn:E2;
    [apply inherited_names_are_not_indices in E2; congruence|].
  destruct (String.eqb r "messages") eqn:E3;
    [apply String.eqb_eq in E3; subst; discriminate|].
  reflexivity.
Qed.

Lemma randomRoomId_index (x : N) :
  Obj.array_index (Home.randomRoomId x) = Some (100000 + x mod 900000)%N.
Proof.
  unfold Home.randomRoomId. apply Radix10Facts.array_index_of_N.
  assert (x mod 900000 < 900000)%N by (apply N.mod_lt; lia). lia.
Qed.

(** X1.  The identifiers the home screen generates are numerals between 100000
    and 999999, and on them the existence check is exact: it answers true
    exactly when the table as read has an entry, whatever has been done to
    the built-in objects; and [createRoom] reports a collision exactly
    then. *)
Theorem generated_room_id_check_is_exact (w : World) (x : N) (now : Z) :
  let r := Home.randomRoomId x in
  let stored := match Obj.own r (table_read w) with
                | Some _ => true
                | None => false
                end in
  (exists n, (100000 <= n <= 999999)%N /\ Obj.array_index r = Some n) /\
  checkRoomExists r w = (Returned stored, after_read w) /\
  fst (createRoom r now w) = Returned (negb stored).
Proof.
  cbv zeta. split; [|split].
  - exists (100000 + x mod 900000)%N. split; [|apply randomRoomId_index].
    assert (H : (x mod 900000 < 900000)%N) by (apply N.mod_lt; lia).
    revert H. generalize (x mod 900000)%N. intros; lia.
  - rewrite checkRoomExists_spec. unfold resolves.
    rewrite (lookup_array_index _ _ _ _ (randomRoomId_index x)).
    destruct (Obj.own _ (table_read w)); reflexivity.
  - rewrite createRoom_spec. unfold resolves.
    rewrite (lookup_array_index _ _ _ _ (randomRoomId_index x)).
    destruct (Obj.own _ (table_read w)); reflexivity.
Qed.

(** ** What the services do to the stored table, case by case *)

Lemma stored_rooms_set_heap (hp : Heap) (w : World) :
  stored_rooms (set_heap hp w) = stored_rooms w.
Proof. reflexivity. Qed.

Lemma stored_after_create (r : string) (now : Z) (w : World) :
  stored_rooms (snd (createRoom r now w)) = stored_rooms w \/
  (device w = Working /\ Obj.own r (stored_rooms w) = None /\
   fst (createRoom r now w) = Returned true /\
   stored_rooms (snd (createRoom r now w))
   = Obj.put r (mkRoom now (Some [])) (stored_rooms w)).
Proof.
  rewrite createRoom_spec.
  destruct (after_read_fields w) as (_ & Hdev & _).
  destruct (resolves w r) eqn:Hres; cbn [fst snd].
  - left. apply stored_rooms_after_read.
  - rewrite stored_rooms_after_save, Hdev.
    destruct (device w) eqn:Hd;
      [right|left; apply stored_rooms_after_read
      |left; apply stored_rooms_after_read].
    apply resolves_false_own in Hres.
    rewrite (table_read_working w Hd) in *. auto.
Qed.

Lemma stored_after_send (r u t : string) (env : SendEnv) (w : World) :
  stored_rooms (snd (sendMessage r u t env w)) = stored_rooms w \/
  exists room,
    device w = Working /\ Obj.own r (stored_rooms w) = Some room /\
    stored_rooms (snd (sendMessage r u t env w))
    = Obj.put r
        (mkRoom (createdAt room)
           (Some (Obj.put (messageIdOf env) (newMessageOf u t env)
                    (room_messages room))))
        (stored_rooms w).
Proof.
  destruct (after_read_fields w) as (_ & Hdev & _).
  assert (Hsame : forall hp,
             stored_rooms
               (after_save (table_read w) (set_heap hp (after_read w)))
             = stored_rooms w).
  { intros hp. rewrite stored_rooms_after_save. cbn [device set_heap].
    rewrite Hdev, stored_rooms_set_heap, stored_rooms_after_read.
    destruct (device w) eqn:Hd; auto. now apply table_read_working. }
  destruct (Obj.own r (table_read w)) as [room|] eqn:Hown.
  - rewrite (sendMessage_own r u t env w room Hown). cbn [snd].
    destruct (device w) eqn:Hd.
    + rewrite (table_read_working w Hd) in *.
      destruct (messages room) eqn:Hm;
        [|destruct (protoMessages (heap w))];
        try (right; exists room; rewrite stored_rooms_after_save, Hdev;
             now auto).
      left. apply Hsame.
    + left. destruct (messages room), (protoMessages (heap w));
        rewrite stored_rooms_after_save; cbn [device set_heap];
        rewrite Hdev, ?stored_rooms_set_heap;
        apply stored_rooms_after_read.
    + left. destruct (messages room), (protoMessages (heap w));
        rewrite stored_rooms_after_save; cbn [device set_heap];
        rewrite Hdev, ?stored_rooms_set_heap;
        apply stored_rooms_after_read.
  - left. destruct (resolves w r) eqn:Hres.
    + destruct (sendMessage_inherited r u t env w Hown Hres) as [H|[hp H]];
        rewrite H; cbn [snd]; [apply stored_rooms_after_read|apply Hsame].
    + rewrite (sendMessage_unresolved r u t env w Hres).
      apply stored_rooms_after_read.
Qed.

(** ** Rooms and messages stay *)

Lemma continues_refl (room : RoomData) : continues room room.
Proof. split; auto. Qed.

Lemma continues_trans (a b c : RoomData) :
  continues a b -> continues b c -> continues a c.
Proof. intros [H1 H2] [H3 H4]. split; [congruence|auto]. Qed.

(** X2.  [createRoom] never replaces a room that is stored: whatever the
    condition of the storage, the stored table is the same afterwards; and
    while the storage can be read the call answers false. *)
Theorem createRoom_keeps_stored_room (w : World) (r : string) (now : Z)
    (room : RoomData) :
  Obj.own r (stored_rooms w) = Some room ->
  stored_rooms (snd (createRoom r now w)) = stored_rooms w /\
  (device w <> Disabled -> fst (createRoom r now w) = Returned false).
Proof.
  intros Hown. split.
  - destruct (stored_after_create r now w) as [H|(_ & H & _)];
      [exact H|congruence].
  - intros Hd. rewrite createRoom_spec.
    assert (Hres : resolves w r = true).
    { apply resolves_own with (room := room). unfold table_read.
      destruct (device w); [exact Hown|exact Hown|congruence]. }
    now rewrite Hres.
Qed.

Lemma createRoom_keeps_stored_room_witness :
  let w := boot (Some (Document
                         [("123456",
                           mkRoom 5 (Some [("lzzt35kwab",
                                            mkMessage "lzzt35kwab" "Alice" "hi"
                                              1724000000000)]))]))
             QuotaFull in
  stored_rooms (snd (createRoom "123456" 9 w)) = stored_rooms w /\
  fst (createRoom "123456" 9 w) = Returned false.
Proof.
  cbv zeta.
  edestruct (createRoom_keeps_stored_room
               (boot (Some (Document
                              [("123456",
                                mkRoom 5 (Some [("lzzt35kwab",
                                                 mkMessage "lzzt35kwab" "Alice"
                                                   "hi" 1724000000000)]))]))
                  QuotaFull)
               "123456" 9) as [H1 H2]; [reflexivity|].
  split; [exact H1|apply H2; discriminate].
Defined.

(** ** Events that only read *)

Lemma run_keeps_when (P : World -> Prop) (allowed : Event -> bool) :
  (forall e, allowed e = true -> keeps P (dispatch e)) ->
  forall es, forallb allowed es = true -> keeps P (run es).
Proof.
  intros Hd. induction es as [|e rest IH]; intros Hall w Hw; [exact Hw|].
  cbn [forallb] in Hall. apply andb_prop in Hall. destruct Hall as [He Hrest].
  cbn [run]. pose proof (Hd e He w Hw) as Hstep.
  destruct (dispatch e w) as [[[]|x|] w']; cbn [snd] in *; auto;
    now apply IH.
Qed.

Section Untouched.

Variable w0 : World.

Lemma untouched_same (w w' : World) :
  item w' = item w -> device w' = device w -> heap w' = heap w ->
  alerts w' = alerts w -> untouched w0 w -> untouched w0 w'.
Proof. unfold untouched. intros -> -> -> ->. auto. Qed.

Lemma untouched_after_read (w : World) :
  untouched w0 w -> untouched w0 (after_read w).
Proof.
  destruct (after_read_fields w) as (Hi & Hd & Hh & _ & Ha & _).
  now apply untouched_same.
Qed.

Lemma checkMessages_reads (h : nat) : keeps (untouched w0) (checkMessages h).
Proof.
  intros w Hw. rewrite checkMessages_spec.
  destruct (nth_error (subs w) h) as [s|]; [|exact Hw].
  destruct (active s); [|exact Hw]. cbn [snd].
  apply untouched_after_read in Hw. revert Hw.
  apply untouched_same; reflexivity.
Qed.

Lemma dispatch_reads (e : Event) :
  reading_event e = true -> keeps (untouched w0) (dispatch e).
Proof.
  destruct e as [h|key|h|r now|r|r u t env|r|h|stored d]; cbn;
    try discriminate; intros _.
  - intros w Hw. unfold when_sub. js_unfold.
    destruct (nth_error (subs w) h) as [s|]; [|exact Hw].
    destruct (ticking s); [now apply checkMessages_reads|exact Hw].
  - apply keeps_bind; [intros w Hw; exact Hw|intros n].
    generalize (seq 0 n). intros hs.
    induction hs as [|h rest IH]; [apply keeps_ret|].
    cbn [for_each]. apply keeps_bind; [|intros _; exact IH].
    intros w Hw. unfold when_sub. js_unfold.
    destruct (nth_error (subs w) h) as [s|]; [|exact Hw].
    destruct (listening s); [|exact Hw].
    unfold handleStorage. destruct key as [k|]; [|exact Hw].
    destruct (String.eqb k STORAGE_KEY);
      [now apply checkMessages_reads|exact Hw].
  - apply checkMessages_reads.
  - apply keeps_bind; [|intros _; apply keeps_ret].
    intros w Hw. rewrite checkRoomExists_spec.
    now apply untouched_after_read.
  - apply keeps_bind; [|intros _; apply keeps_ret].
    intros w Hw. rewrite subscribe_spec. cbn [snd].
    apply untouched_after_read in Hw. revert Hw.
    apply untouched_same; reflexivity.
  - intros w Hw. unfold unsubscribe, update_sub. js_unfold. cbn [snd].
    revert Hw. apply untouched_same; reflexivity.
Qed.

End Untouched.

Lemma for_each_returns (hs : list nat) (f : nat -> JS unit) :
  (forall h w, fst (f h w) = Returned tt) ->
  forall w, fst (for_each hs f w) = Returned tt.
Proof.
  intros Hf. induction hs as [|h rest IH]; intros w; [reflexivity|].
  cbn [for_each]. unfold bind. specialize (Hf h w).
  destruct (f h w) as [o w']. cbn [fst] in Hf. subst o. apply IH.
Qed.

Lemma checkMessages_returns (h : nat) (w : World) :
  fst (checkMessages h w) = Returned tt.
Proof.
  rewrite checkMessages_spec.
  destruct (nth_error (subs w) h) as [s|]; [|reflexivity].
  now destruct (active s).
Qed.

Lemma dispatch_reading_returns (e : Event) (w : World) :
  reading_event e = true -> fst (dispatch e w) = Returned tt.
Proof.
  destruct e as [h|key|h|r now|r|r u t env|r|h|stored d]; cbn;
    try discriminate; intros _.
  - unfold when_sub. js_unfold.
    destruct (nth_error (subs w) h) as [s|]; [|reflexivity].
    destruct (ticking s); [apply checkMessages_returns|reflexivity].
  - js_unfold. apply for_each_returns. intros h w1.
    unfold when_sub. js_unfold.
    destruct (nth_error (subs w1) h) as [s|]; [|reflexivity].
    destruct (listening s); [|reflexivity].
    unfold handleStorage. destruct key as [k|]; [|reflexivity].
    destruct (String.eqb k STORAGE_KEY);
      [apply checkMessages_returns|reflexivity].
  - apply checkMessages_returns.
  - unfold bind. now rewrite checkRoomExists_spec.
  - unfold bind. now rewrite subscribe_spec.
  - reflexivity.
Qed.

(** X3.  Ticks, storage events, existence checks, subscribing and
    unsubscribing only read.  Take a stored item that is absent, empty, not
    JSON, or a table of rooms, and any number of them in any order: each one
    of them returns (none throws), and the stored item, the condition of the
    storage, the built-in objects and the alerts stay as they were. *)
Theorem reading_never_writes (w : World) (es : list Event) :
  forallb reading_event es = true ->
  all_return es w = true /\ untouched w (snd (run es w)).
Proof.
  intros Hall. split.
  - revert w. induction es as [|e rest IH]; intros w; [reflexivity|].
    cbn [forallb] in Hall. apply andb_prop in Hall. destruct Hall as [He Hr].
    cbn [all_return]. pose proof (dispatch_reading_returns e w He) as Ho.
    destruct (dispatch e w) as [o w']. cbn [fst] in Ho. subst o.
    now apply IH.
  - apply (run_keeps_when (untouched w) reading_event (dispatch_reads w) es
             Hall w).
    repeat split.
Qed.

Lemma reading_never_writes_witness :
  let w := boot (Some Corrupt) Working in
  let es := [CallSubscribe "123456"; TimerFires 0; CallExists "654321";
             StorageEvent (Some "firechat_rooms"); InFlight 0;
             CallUnsubscribe 0] in
  all_return es w = true /\ item (snd (run es w)) = Some Corrupt.
Proof.
  cbv zeta.
  destruct (reading_never_writes (boot (Some Corrupt) Working)
              [CallSubscribe "123456"; TimerFires 0; CallExists "654321";
               StorageEvent (Some "firechat_rooms"); InFlight 0;
               CallUnsubscribe 0] eq_refl) as (H1 & H2 & _).
  split; [exact H1|exact H2].
Defined.

(** ** Nothing is deleted *)

Lemma survives_same_stored (r : string) (room : RoomData) (w w' : World) :
  stored_rooms w' = stored_rooms w -> survives r room w -> survives r room w'.
Proof. unfold survives. now intros ->. Qed.

Lemma dispatch_survives (r : string) (room : RoomData) (e : Event) :
  own_event e = true -> keeps (survives r room) (dispatch e).
Proof.
  intros Hown.
  destruct (reading_event e) eqn:Hread.
  - intros w Hw. revert Hw. apply survives_same_stored.
    destruct (dispatch_reads w e Hread w) as (Hi & _); [repeat split|].
    unfold stored_rooms. now rewrite Hi.
  - destruct e as [h|key|h|r' now|r'|r' u t env|r'|h|stored d];
      try discriminate.
    + cbn [dispatch]. apply keeps_bind; [|intros _; apply keeps_ret].
      intros w Hw.
      destruct (stored_after_create r' now w) as [H|(_ & Hnone & _ & H)].
      * revert Hw. now apply survives_same_stored.
      * destruct Hw as (room' & Hroom' & Hc). exists room'.
        split; [|exact Hc]. rewrite H.
        rewrite ObjFacts.own_put_other; [exact Hroom'|].
        intros ->. congruence.
    + cbn [dispatch]. intros w Hw.
      destruct (stored_after_send r' u t env w) as [H|(room1 & _ & Hr1 & H)].
      * revert Hw. now apply survives_same_stored.
      * destruct Hw as (room' & Hroom' & Hc). unfold survives. rewrite H.
        destruct (String.eqb r r') eqn:E.
        -- apply String.eqb_eq in E. subst r'.
           assert (room1 = room') by congruence. subst room1.
           eexists. split; [apply ObjFacts.own_put_same|].
           apply (continues_trans _ _ _ Hc). split; [reflexivity|].
           intros mid Hmid. unfold room_messages at 1. cbn [messages].
           destruct (String.eqb mid (messageIdOf env)) eqn:E'.
           ++ apply String.eqb_eq in E'. subst mid.
              rewrite ObjFacts.own_put_same. discriminate.
           ++ apply String.eqb_neq in E'.
              now rewrite ObjFacts.own_put_other.
        -- apply String.eqb_neq in E. exists room'.
           split; [|exact Hc]. now rewrite ObjFacts.own_put_other.
Qed.

(** X4.  No operation of this tab deletes anything: over any sequence of its
    events (creations, sends, checks, ticks, storage events, subscriptions),
    a stored room stays stored with its creation time, and every message
    identifier it holds stays in it. *)
Theorem nothing_is_deleted (w : World) (r : string) (room : RoomData)
    (es : list Event) :
  forallb own_event es = true ->
  Obj.own r (stored_rooms w) = Some room ->
  exists room',
    Obj.own r (stored_rooms (snd (run es w))) = Some room' /\
    createdAt room' = createdAt room /\
    forall mid, Obj.own mid (room_messages room) <> None ->
                Obj.own mid (room_messages room') <> None.
Proof.
  intros Hall Hown.
  destruct (run_keeps_when (survives r room) own_event
              (dispatch_survives r room) es Hall w)
    as (room' & Hroom' & Hc & Hm).
  - exists room. split; [exact Hown|apply continues_refl].
  - exists room'. auto.
Qed.

Lemma nothing_is_deleted_witness :
  let env := mkSendEnv 1724000000000 1724000000000 [10; 11]%N in
  let old := mkMessage "lzzt35kwab" "Alice" "hi" 1724000000000 in
  let w := boot (Some (Document
                         [("123456", mkRoom 5 (Some [("lzzt35kwab", old)]))]))
             Working in
  let es := [CallCreate "123456" 9; CallSend "123456" "Bob" "yo" env;
             CallCreate "654321" 10; CallSubscribe "123456"; TimerFires 0] in
  exists room',
    Obj.own "123456" (stored_rooms (snd (run es w))) = Some room' /\
    createdAt room' = 5%Z /\
    Obj.own "lzzt35kwab" (room_messages room') <> None.
Proof.
  cbv zeta.
  edestruct (nothing_is_deleted
               (boot (Some (Document
                              [("123456",
                                mkRoom 5
                                  (Some [("lzzt35kwab",
                                          mkMessage "lzzt35kwab" "Alice" "hi"
                                            1724000000000)]))]))
                  Working)
               "123456" _
               [CallCreate "123456" 9;
                CallSend "123456" "Bob" "yo"
                  (mkSendEnv 1724000000000 1724000000000 [10; 11]%N);
                CallCreate "654321" 10; CallSubscribe "123456"; TimerFires 0]
               eq_refl eq_refl) as (room' & H1 & H2 & H3).
  exists room'. split; [exact H1|]. split; [exact H2|].
  apply H3. discriminate.
Defined.

(** ** Message identifiers *)

Lemma all_chars_app (p : ascii -> bool) (a b : string) :
  all_chars p (a ++ b) = all_chars p a && all_chars p b.
Proof.
  induction a as [|c rest IH]; cbn; [reflexivity|].
  now rewrite IH, andb_assoc.
Qed.

Lemma id_char_digit (d : N) : (d < 36)%N -> id_char (Radix36.digit d) = true.
Proof.
  intros Hd. unfold id_char, Radix36.digit.
  destruct (d <? 10)%N eqn:E.
  - apply N.ltb_lt in E. rewrite N_ascii_embedding by lia.
    replace (48 <=? 48 + d)%N with true by (symmetry; apply N.leb_le; lia).
    replace (48 + d <=? 57)%N with true by (symmetry; apply N.leb_le; lia).
    reflexivity.
  - apply N.ltb_ge in E. rewrite N_ascii_embedding by lia.
    replace (97 <=? 87 + d)%N with true by (symmetry; apply N.leb_le; lia).
    replace (87 + d <=? 122)%N with true by (symmetry; apply N.leb_le; lia).
    now rewrite orb_true_r.
Qed.

Lemma id_chars_digits (fuel : nat) :
  forall (n : N) (acc : string),
    all_chars id_char acc = true ->
    all_chars id_char (Radix36.digits fuel n acc) = true.
Proof.
  induction fuel as [|fuel IH]; intros n acc Hacc; [exact Hacc|].
  cbn [Radix36.digits].
  assert (Hc : all_chars id_char
                 (String (Radix36.digit (n mod 36)) acc) = true).
  { cbn [all_chars]. rewrite id_char_digit, Hacc; [reflexivity|].
    apply N.mod_lt. lia. }
  destruct (n / 36 =? 0)%N; [exact Hc|now apply IH].
Qed.

Lemma id_chars_toString (z : Z) :
  all_chars id_char (Radix36.toString z) = true.
Proof.
  destruct z as [|p|p]; cbn [Radix36.toString]; [reflexivity| |].
  - now apply id_chars_digits.
  - rewrite all_chars_app. unfold Radix36.of_N.
    rewrite (id_chars_digits _ _ "" eq_refl). reflexivity.
Qed.

Lemma id_chars_fraction (ds : list N) :
  all_chars id_char (Radix36.fraction ds) = true.
Proof.
  induction ds as [|d rest IH]; [reflexivity|].
  cbn [Radix36.fraction fold_right all_chars].
  fold (Radix36.fraction rest). rewrite IH, id_char_digit; [reflexivity|].
  apply N.mod_lt. lia.
Qed.

(** X5.  The identifier [sendMessage] generates is made of digits, lower-case
    letters and the minus sign only.  It is therefore never "__proto__", the
    one key whose assignment would not store a property, and among the names
    inherited from [Object.prototype] it can only be "constructor". *)
Theorem message_id_is_a_plain_key (env : SendEnv) :
  all_chars id_char (messageIdOf env) = true /\
  messageIdOf env <> "__proto__" /\
  (is_inherited_function (messageIdOf env) = true ->
   messageIdOf env = "constructor").
Proof.
  assert (H : all_chars id_char (messageIdOf env) = true).
  { unfold messageIdOf.
    now rewrite all_chars_app, id_chars_toString, id_chars_fraction. }
  split; [exact H|]. split.
  - intros E. rewrite E in H. discriminate.
  - unfold is_inherited_function, inheritedFunctions. cbn [existsb].
    destruct (String.eqb (messageIdOf env) "constructor") eqn:E0;
      [intros _; now apply String.eqb_eq|].
    cbn [orb].
    repeat (destruct (String.eqb (messageIdOf env) _) eqn:E;
            [apply String.eqb_eq in E; rewrite E in H; discriminate
            |clear E; cbn [orb]]).
    discriminate.
Qed.

Lemma message_id_is_a_plain_key_witness :
  messageIdOf (mkSendEnv 1724000000000 1724000000000 [10; 11]%N)
  <> "__proto__".
Proof.
  exact (proj1 (proj2 (message_id_is_a_plain_key
                         (mkSendEnv 1724000000000 1724000000000
                            [10; 11]%N)))).
Defined.

Lemma digits_length (k : nat) :
  forall (fuel : nat) (n : N) (acc : string),
    (36 ^ N.of_nat k <= n < 36 ^ N.of_nat (S k))%N ->
    (n < 2 ^ N.of_nat fuel)%N ->
    String.length (Radix36.digits fuel n acc)
    = (k + 1 + String.length acc)%nat.
Proof.
  induction k as [|k IH]; intros fuel n acc Hn Hf.
  - cbn in Hn. destruct fuel as [|fuel]; [cbn in Hf; lia|].
    cbn [Radix36.digits]. rewrite (N.div_small n 36) by lia. reflexivity.
  - assert (E1 : (36 ^ N.of_nat (S k) = 36 * 36 ^ N.of_nat k)%N)
      by (rewrite Nat2N.inj_succ; apply N.pow_succ_r').
    assert (E2 : (36 ^ N.of_nat (S (S k)) = 36 * 36 ^ N.of_nat (S k))%N)
      by (rewrite (Nat2N.inj_succ (S k)); apply N.pow_succ_r').
    rewrite E2 in Hn. rewrite E1 in Hn at 1.
    assert (Hpos : (36 ^ N.of_nat k <> 0)%N) by (apply N.pow_nonzero; lia).
    destruct fuel as [|fuel].
    { cbn in Hf. lia. }
    rewrite Nat2N.inj_succ, N.pow_succ_r' in Hf.
    assert (Hlo : (36 ^ N.of_nat k <= n / 36)%N)
      by (apply N.div_le_lower_bound; lia).
    assert (Hhi : (n / 36 < 36 ^ N.of_nat (S k))%N)
      by (apply N.Div0.div_lt_upper_bound; lia).
    assert (Hfuel : (n / 36 < 2 ^ N.of_nat fuel)%N)
      by (apply N.Div0.div_lt_upper_bound; lia).
    cbn [Radix36.digits].
    replace (n / 36 =? 0)%N with false by (symmetry; apply N.eqb_neq; lia).
    rewrite (IH fuel (n / 36)%N _ (conj Hlo Hhi) Hfuel). cbn. lia.
Qed.

Lemma append_same_length (a a' b b' : string) :
  String.length a = String.length a' ->
  (a ++ b = a' ++ b')%string -> a = a' /\ b = b'.
Proof.
  revert a'. induction a as [|c rest IH]; intros [|c' rest'] Hl Happ;
    cbn in *; try discriminate; [auto|].
  injection Hl as Hl. injection Happ as -> Happ.
  destruct (IH rest' Hl Happ) as [-> ->]. auto.
Qed.

Lemma clock_numeral_length (c : Z) :
  (78364164096 <= c < 2821109907456)%Z ->
  exists n, Radix36.toString c = Radix36.of_N n /\ Z.of_N n = c /\
            String.length (Radix36.of_N n) = 8.
Proof.
  intros Hc. destruct c as [|p|p]; try lia.
  exists (Npos p). split; [reflexivity|]. split; [reflexivity|].
  unfold Radix36.of_N.
  rewrite (digits_length 7); [reflexivity| |].
  - change (36 ^ N.of_nat 7)%N with 78364164096%N.
    change (36 ^ N.of_nat 8)%N with 2821109907456%N. lia.
  - rewrite Nat2N.inj_succ, N2Nat.id, N.pow_succ_r'.
    pose proof (N.size_gt (Npos p)). lia.
Qed.

(** X6.  Between 1972 and 2059 the clock's numeral in base 36 has eight digits;
    two sends made then get the same identifier only if both the clock
    reading used for the identifier and the random digits coincide: sends in
    different milliseconds never collide. *)
Theorem message_ids_collide_only_within_a_millisecond (e1 e2 : SendEnv) :
  (78364164096 <= clockId e1 < 2821109907456)%Z ->
  (78364164096 <= clockId e2 < 2821109907456)%Z ->
  messageIdOf e1 = messageIdOf e2 ->
  clockId e1 = clockId e2 /\
  Radix36.fraction (randomDigits e1) = Radix36.fraction (randomDigits e2).
Proof.
  intros H1 H2 Heq. unfold messageIdOf in Heq.
  destruct (clock_numeral_length _ H1) as (n1 & E1 & Z1 & L1).
  destruct (clock_numeral_length _ H2) as (n2 & E2 & Z2 & L2).
  rewrite E1, E2 in Heq.
  destruct (append_same_length _ _ _ _ (eq_trans L1 (eq_sym L2)) Heq)
    as [Hn Hf].
  split; [|exact Hf].
  apply Radix36Facts.of_N_injective in Hn. congruence.
Qed.

Lemma message_ids_collide_only_within_a_millisecond_witness :
  messageIdOf (mkSendEnv 1724000000000 1724000000000 [10; 11]%N)
  <> messageIdOf (mkSendEnv 1724000000001 1724000000001 [10; 11]%N).
Proof.
  intros Heq.
  destruct (message_ids_collide_only_within_a_millisecond
              (mkSendEnv 1724000000000 1724000000000 [10; 11]%N)
              (mkSendEnv 1724000000001 1724000000001 [10; 11]%N))
    as [Hc _]; [cbn; lia|cbn; lia|exact Heq|].
  discriminate Hc.
Defined.

(** ** The order of a delivery *)

Lemma stamped_insert (t : Z) (m : ChatMessage) (l : list ChatMessage) :
  stamped t (insert_by_timestamp m l) = stamped t (m :: l).
Proof.
  induction l as [|x rest IH]; [reflexivity|].
  cbn [insert_by_timestamp].
  destruct (timestamp m <=? timestamp x)%Z eqn:E; [reflexivity|].
  apply Z.leb_gt in E. unfold stamped in *. cbn [filter] in *. rewrite IH.
  destruct (timestamp x =? t)%Z eqn:Ex, (timestamp m =? t)%Z eqn:Em;
    try reflexivity.
  apply Z.eqb_eq in Ex, Em. lia.
Qed.

(** The sort is stable: messages with the same timestamp keep their
    order. *)
Lemma sort_by_timestamp_stable (t : Z) (l : list ChatMessage) :
  stamped t (sort_by_timestamp l) = stamped t l.
Proof.
  induction l as [|m rest IH]; [reflexivity|].
  change (sort_by_timestamp (m :: rest))
    with (insert_by_timestamp m (sort_by_timestamp rest)).
  rewrite stamped_insert. unfold stamped in *. cbn [filter]. now rewrite IH.
Qed.

(** X7.  What [checkMessages] hands over for a stored room that has a message
    object, in any condition of the world: all the messages of the object and
    no others, in ascending order of timestamp, those with the same timestamp
    in the order in which the object lists them. *)
Theorem delivery_is_the_sorted_room (hp : Heap) (rooms : Rooms) (r : string)
    (room : RoomData) (ms : Messages) :
  Obj.own r rooms = Some room -> messages room = Some ms ->
  exists l,
    message_list hp rooms r = map VMsg l /\
    StronglySorted by_timestamp l /\
    Permutation l (Obj.values ms) /\
    List.length l = List.length ms /\
    forall t, stamped t l = stamped t (Obj.values ms).
Proof.
  intros Hown Hm. exists (sort_by_timestamp (Obj.values ms)).
  split; [|split; [|split; [|split]]].
  - unfold message_list. rewrite (lookup_own hp _ _ _ Hown).
    cbn [messages_of]. now rewrite Hm.
  - apply sort_by_timestamp_sorted.
  - apply sort_by_timestamp_perm.
  - rewrite (Permutation_length (sort_by_timestamp_perm (Obj.values ms))).
    unfold Obj.values. apply length_map.
  - intros t. apply sort_by_timestamp_stable.
Qed.

Lemma delivery_is_the_sorted_room_witness :
  let a := mkMessage "lzzt35kwab" "Alice" "hi" 1724000000007 in
  let b := mkMessage "lzzt35kw00" "Bob" "yo" 1724000000000 in
  let c := mkMessage "lzzt35kw01" "Carol" "hey" 1724000000000 in
  let rooms := [("123456", mkRoom 5 (Some [("lzzt35kwab", a);
                                           ("lzzt35kw00", b);
                                           ("lzzt35kw01", c)]))] in
  exists l,
    message_list pristine rooms "123456" = map VMsg l /\
    stamped 1724000000000 l = [b; c].
Proof.
  cbv zeta.
  edestruct (delivery_is_the_sorted_room pristine
               [("123456",
                 mkRoom 5
                   (Some [("lzzt35kwab",
                           mkMessage "lzzt35kwab" "Alice" "hi" 1724000000007);
                          ("lzzt35kw00",
                           mkMessage "lzzt35kw00" "Bob" "yo" 1724000000000);
                          ("lzzt35kw01",
                           mkMessage "lzzt35kw01" "Carol" "hey"
                             1724000000000)]))]
               "123456" _ _ eq_refl eq_refl) as (l & H1 & _ & _ & _ & H2).
  exists l. split; [exact H1|]. rewrite H2. reflexivity.
Defined.

(** ** The home screen *)

Lemma await_alone {A} (m : JS A) (w : World) : await [] m w = m w.
Proof. reflexivity. Qed.

Lemma checkRoomExists_generated (x : N) (w : World) :
  checkRoomExists (Home.randomRoomId x) w =
  (Returned (match Obj.own (Home.randomRoomId x) (table_read w) with
             | Some _ => true
             | None => false
             end), after_read w).
Proof.
  rewrite checkRoomExists_spec. unfold resolves.
  rewrite (lookup_array_index _ _ _ _ (randomRoomId_index x)).
  destruct (Obj.own _ (table_read w)); reflexivity.
Qed.

Lemma createRoom_generated (x : N) (now : Z) (w : World) :
  Obj.own (Home.randomRoomId x) (table_read w) = None ->
  createRoom (Home.randomRoomId x) now w =
  (Returned true,
   after_save (Obj.put (Home.randomRoomId x) (mkRoom now (Some []))
                 (table_read w)) (after_read w)).
Proof.
  intros Hfree. rewrite createRoom_spec. unfold resolves.
  rewrite (lookup_array_index _ _ _ _ (randomRoomId_index x)), Hfree.
  reflexivity.
Qed.

Section HomeFacts.

Variable trim : string -> string.

(** X8.  [handleJoinRoom], run with no other task in between.  It calls
    [onJoinRoom], with the trimmed room identifier and the name as typed,
    exactly when the trimmed name and the trimmed identifier are not empty
    and [rooms[id]] is truthy; it leaves an error message exactly when it does
    not; it never writes (stored item, storage condition, built-in objects
    and alerts stay as they were); and when the name or the identifier is
    blank it returns before any service is called. *)
Theorem handleJoinRoom_outcome (st : Home.State) (w : World) :
  let id := trim (Home.joinRoomId st) in
  let valid := negb (String.eqb (trim (Home.username st)) "")
               && negb (String.eqb id "") in
  let joins := valid && resolves w id in
  let result := Home.handleJoinRoom trim st [] w in
  (exists st',
     fst result
     = Returned (st', if joins then Some (id, Home.username st) else None) /\
     (Home.error st' = None <-> joins = true) /\
     (valid = true -> Home.loading st' = false)) /\
  (valid = false -> snd result = w) /\
  untouched w (snd result).
Proof.
  cbv zeta. unfold Home.handleJoinRoom, Home.validateUsername.
  destruct (String.eqb (trim (Home.username st)) "") eqn:Eu; cbn [negb andb].
  { split; [|split; [reflexivity|repeat split]].
    eexists. split; [reflexivity|]. split; [|discriminate].
    cbn. split; discriminate. }
  destruct (String.eqb (trim (Home.joinRoomId st)) "") eqn:Ei; cbn [negb andb].
  { split; [|split; [reflexivity|repeat split]].
    eexists. split; [reflexivity|]. split; [|discriminate].
    cbn. split; discriminate. }
  unfold try_catch, bind. rewrite await_alone.
  cbn [Home.joinRoomId Home.setError Home.setLoading Home.username].
  rewrite checkRoomExists_spec.
  destruct (resolves w (trim (Home.joinRoomId st))); cbn [fst snd ret].
  - split; [|split; [discriminate|now apply untouched_after_read]].
    eexists. split; [reflexivity|]. cbn. repeat split; auto.
  - split; [|split; [discriminate|now apply untouched_after_read]].
    eexists. split; [reflexivity|]. cbn. repeat split; auto; discriminate.
Qed.

End HomeFacts.

Lemma handleJoinRoom_outcome_witness :
  let w := boot (Some (Document [("123456", mkRoom 5 (Some []))])) Working in
  let st := Home.mkState " Alice" "123456" None false in
  exists st',
    fst (Home.handleJoinRoom (fun s => s) st [] w)
    = Returned (st', Some ("123456", " Alice")).
Proof.
  cbv zeta.
  destruct (handleJoinRoom_outcome (fun s => s)
              (Home.mkState " Alice" "123456" None false)
              (boot (Some (Document [("123456", mkRoom 5 (Some []))]))
                 Working)) as ((st' & H & _) & _).
  exists st'. exact H.
Defined.

Lemma untouched_refl (w : World) : untouched w w.
Proof. repeat split. Qed.

Lemma untouched_trans (a b c : World) :
  untouched a b -> untouched b c -> untouched a c.
Proof.
  unfold untouched. intros (H1 & H2 & H3 & H4) (H5 & H6 & H7 & H8).
  repeat split; congruence.
Qed.

Lemma untouched_tables (w0 w : World) :
  untouched w0 w ->
  table_read w = table_read w0 /\ stored_rooms w = stored_rooms w0.
Proof.
  intros (Hi & Hd & _). unfold table_read, stored_rooms.
  now rewrite Hi, Hd.
Qed.

Section CreateRoomHandler.

Variable trim : string -> string.
Variable env : Home.CreateEnv.
Hypothesis alone : forall k, Home.meanwhile env k = [].

Local Abbreviation gen := (fun k => Home.randomRoomId (Home.draws env k)).

Lemma retry_finds (left : nat) :
  forall (k : nat) (id : string) (w : World),
  exists w' id',
    untouched w w' /\
    Home.retry env left k id true w =
    (Returned (match find (vacant (table_read w)) (map gen (seq k left)) with
               | Some r => (r, false)
               | None => (id', true)
               end), w').
Proof.
  induction left as [|left IH]; intros k id w.
  - exists w, id. split; [apply untouched_refl|reflexivity].
  - cbn [Home.retry seq map find]. unfold bind. rewrite alone, await_alone.
    rewrite checkRoomExists_generated.
    unfold vacant at 1.
    destruct (Obj.own (gen k) (table_read w)) as [room|] eqn:Hown.
    + destruct (IH (S k) (gen k) (after_read w)) as (w' & id' & Hu & Hr).
      exists w', id'. split.
      * eapply untouched_trans; [|exact Hu].
        apply untouched_after_read, untouched_refl.
      * rewrite Hr, table_read_after_read. reflexivity.
    + exists (after_read w), id. split;
        [apply untouched_after_read, untouched_refl|].
      destruct left; reflexivity.
Qed.

(** The handler in closed form. *)
Lemma handleCreateRoom_run (st : Home.State) (w : World) :
  String.eqb (trim (Home.username st)) "" = false ->
  exists w1,
    untouched w w1 /\
    Home.handleCreateRoom trim st env w =
    match find (vacant (table_read w)) (candidates env) with
    | Some r =>
        (Returned (Home.mkState (Home.username st) (Home.joinRoomId st)
                     None false,
                   Some (r, Home.username st)),
         snd (createRoom r (Home.now env) w1))
    | None =>
        (Returned (Home.mkState (Home.username st) (Home.joinRoomId st)
                     (Some "An error occurred. Please try again.") false,
                   None),
         w1)
    end.
Proof.
  intros Hvalid.
  unfold Home.handleCreateRoom, Home.validateUsername. rewrite Hvalid.
  cbn [negb]. unfold try_catch.
  rewrite (bind_returned _ _ w (after_read w) _
             (eq_trans (f_equal (fun l => await l _ w) (alone 0))
                (checkRoomExists_generated _ w))).
  change (find (vacant (table_read w)) (candidates env))
    with (if vacant (table_read w) (gen 0) then Some (gen 0)
          else find (vacant (table_read w)) (map gen (seq 1 3))).
  unfold vacant at 1.
  destruct (Obj.own (gen 0) (table_read w)) as [room0|] eqn:Hown0.
  - destruct (retry_finds 3 1 (gen 0) (after_read w))
      as (w1 & id' & Hu & Hr).
    rewrite (bind_returned _ _ _ _ _ Hr), table_read_after_read. clear Hr.
    assert (Hu1 : untouched w w1)
      by (eapply untouched_trans; [|exact Hu];
          apply untouched_after_read, untouched_refl).
    destruct (find (vacant (table_read w)) (map gen (seq 1 3)))
      as [r|] eqn:Hf.
    + exists w1. split; [exact Hu1|].
      apply find_some in Hf. destruct Hf as [Hin Hfree].
      apply in_map_iff in Hin. destruct Hin as (k & <- & _).
      unfold vacant in Hfree.
      destruct (Obj.own (gen k) (table_read w)) eqn:Hown; [discriminate|].
      unfold bind. rewrite alone, await_alone.
      rewrite createRoom_generated
        by (destruct (untouched_tables w w1 Hu1) as [-> _]; exact Hown).
      reflexivity.
    + eexists. split; [|reflexivity]. cbn [snd].
      eapply untouched_trans; [exact Hu1|]. repeat split.
  - exists (after_read w).
    split; [apply untouched_after_read, untouched_refl|].
    cbn [Home.retry]. unfold bind at 1. unfold ret at 1.
    unfold bind. rewrite alone, await_alone.
    rewrite createRoom_generated by now rewrite table_read_after_read.
    reflexivity.
Qed.

(** X9.  [handleCreateRoom], run with a valid name and no other task in between.
    It tries up to four generated identifiers and takes the first that has no
    entry in the table as read.  If there is one, [createRoom] succeeds on it
    and [onJoinRoom] is called with it, so the message "Failed to create
    room" is never shown; while the storage works the room is then stored,
    new and empty, and no other room is changed, and while it refuses writes
    the stored table stays as it was and the user is sent into the room all
    the same.  If all four are taken,
    the handler shows "An error occurred" and the stored table is
    untouched. *)
Theorem handleCreateRoom_outcome (st : Home.State) (w : World) :
  String.eqb (trim (Home.username st)) "" = false ->
  let result := Home.handleCreateRoom trim st env w in
  match find (vacant (table_read w)) (candidates env) with
  | Some r =>
      (exists st',
         fst result = Returned (st', Some (r, Home.username st)) /\
         Home.error st' = None /\ Home.loading st' = false) /\
      (device w = Working ->
       Obj.own r (stored_rooms (snd result))
       = Some (mkRoom (Home.now env) (Some [])) /\
       forall r', r' <> r ->
                  Obj.own r' (stored_rooms (snd result))
                  = Obj.own r' (stored_rooms w)) /\
      (device w <> Working -> stored_rooms (snd result) = stored_rooms w)
  | None =>
      (exists st',
         fst result = Returned (st', None) /\
         Home.error st' = Some "An error occurred. Please try again." /\
         Home.loading st' = false) /\
      stored_rooms (snd result) = stored_rooms w
  end.
Proof.
  intros Hvalid. cbv zeta.
  destruct (handleCreateRoom_run st w Hvalid) as (w1 & Hu & Hrun).
  rewrite Hrun. clear Hrun.
  destruct (untouched_tables w w1 Hu) as [Ht Hs].
  destruct (find (vacant (table_read w)) (candidates env)) as [r|] eqn:Hf;
    cbn [fst snd].
  - split; [eexists; split; [reflexivity|cbn; auto]|].
    apply find_some in Hf. destruct Hf as [Hin Hfree].
    apply in_map_iff in Hin. destruct Hin as (k & <- & _).
    unfold vacant in Hfree.
    destruct (Obj.own (gen k) (table_read w)) eqn:Hown; [discriminate|].
    rewrite createRoom_generated by now rewrite Ht.
    cbn [snd]. destruct Hu as (_ & Hd & _).
    destruct (after_read_fields w1) as (_ & Hdev & _).
    rewrite stored_rooms_after_save, Hdev, Hd, stored_rooms_after_read, Hs.
    split.
    + intros Hw. rewrite Hw, Ht, (table_read_working w Hw).
      split; [apply ObjFacts.own_put_same|].
      intros r' Hne. now apply ObjFacts.own_put_other.
    + intros Hw. destruct (device w); congruence.
  - split; [eexists; split; [reflexivity|cbn; auto]|exact Hs].
Qed.

End CreateRoomHandler.

Lemma handleCreateRoom_outcome_witness :
  let env := Home.mkCreateEnv (fun k => 23456 + N.of_nat k)%N 9
               (fun _ => []) in
  let st := Home.mkState "Alice" "" None false in
  let w := boot (Some (Document [("123456", mkRoom 5 (Some []))])) Working in
  let result := Home.handleCreateRoom (fun s => s) st env w in
  (exists st', fst result = Returned (st', Some ("123457", "Alice"))) /\
  Obj.own "123457" (stored_rooms (snd result)) = Some (mkRoom 9 (Some [])) /\
  Obj.own "123456" (stored_rooms (snd result)) = Some (mkRoom 5 (Some [])).
Proof.
  cbv zeta.
  pose proof (handleCreateRoom_outcome (fun s => s)
                (Home.mkCreateEnv (fun k => 23456 + N.of_nat k)%N 9
                   (fun _ => []))
                (fun _ => eq_refl)
                (Home.mkState "Alice" "" None false)
                (boot (Some (Document [("123456", mkRoom 5 (Some []))]))
                   Working)
                eq_refl) as H.
  change (find _ _) with (Some "123457") in H.
  cbv zeta in H. destruct H as ((st' & H1 & _) & H2 & _).
  destruct (H2 eq_refl) as [H3 H4].
  split; [exists st'; exact H1|]. split; [exact H3|].
  rewrite (H4 "123456" ltac:(discriminate)). reflexivity.
Defined.

(** ** The chat room *)

Lemma alerts_after_save (rooms : Rooms) (w : World) :
  alerts (after_save rooms w) =
  match device w with
  | Working => alerts w
  | _ => SAVE_ALERT :: alerts w
  end.
Proof. unfold after_save. destruct (device w); reflexivity. Qed.

Section ChatRoomFacts.

Variable trim : string -> string.

(** X10.  [handleSend], run with no other task in between.  A text that
    trims to nothing is not sent: the handler returns at once and changes
    nothing.  Any other text is sent trimmed: while the storage works, for a
    stored room that has a [messages] object of its own (or, should it have
    none, while [Object.prototype] has no [messages] property either), the
    stored room then holds, under the generated identifier, a message with
    the user's name, the trimmed text and the reading of the clock, and the
    input is cleared. *)
Theorem handleSend_sends_trimmed_text (props : ChatRoom.Props)
    (st : ChatRoom.State) (env : SendEnv) (w : World) (room : RoomData) :
  let text := trim (ChatRoom.inputText st) in
  let result := ChatRoom.handleSend trim props st [] env w in
  (String.eqb text "" = true -> result = (Returned st, w)) /\
  (String.eqb text "" = false ->
   device w = Working ->
   Obj.own (ChatRoom.roomId props) (stored_rooms w) = Some room ->
   (messages room = None -> protoMessages (heap w) = None) ->
   fst result = Returned (ChatRoom.mkState "" false) /\
   exists room',
     Obj.own (ChatRoom.roomId props) (stored_rooms (snd result))
     = Some room' /\
     Obj.own (messageIdOf env) (room_messages room')
     = Some (mkMessage (messageIdOf env) (ChatRoom.username props) text
               (clockStamp env))).
Proof.
  cbv zeta. unfold ChatRoom.handleSend. split.
  - intros ->. reflexivity.
  - intros -> Hd Hown Hp.
    unfold try_catch, bind. rewrite await_alone.
    cbn [ChatRoom.inputText ChatRoom.setSending].
    rewrite (send_step w _ _ _ env room Hd Hown Hp). cbn [fst snd ret].
    split; [reflexivity|].
    eexists. unfold stored_rooms at 1. cbn [item set_item].
    split; [apply ObjFacts.own_put_same|].
    unfold room_messages at 1. cbn [messages].
    apply ObjFacts.own_put_same.
Qed.

(** X11.  [handleSend] with a text that does not trim to nothing, while the
    stored item is absent, empty, not JSON, or a table of rooms (a stored
    JSON value of another shape, such as [null], makes [rooms[roomId]] throw
    and the catch block run; no world here has one).  Then [sendMessage] does
    not throw, so the alert "Failed to send message" is not raised; the only
    alert there can be is the one of [saveRooms].  Unless the run leaves the
    model the input is cleared, also when the write was refused and the
    stored table is as before, that is, when the message is lost. *)
Theorem handleSend_clears_input_on_refused_write (props : ChatRoom.Props)
    (st : ChatRoom.State) (env : SendEnv) (w : World) :
  String.eqb (trim (ChatRoom.inputText st)) "" = false ->
  let result := ChatRoom.handleSend trim props st [] env w in
  (fst result = Returned (ChatRoom.mkState "" false) \/
   fst result = Unmodelled) /\
  (alerts (snd result) = alerts w \/
   alerts (snd result) = SAVE_ALERT :: alerts w) /\
  (device w <> Working ->
   stored_rooms (snd result) = stored_rooms w /\
   (resolves w (ChatRoom.roomId props) = true ->
    fst result = Returned (ChatRoom.mkState "" false) ->
    alerts (snd result) = SAVE_ALERT :: alerts w)).
Proof.
  intros Hne. cbv zeta. unfold ChatRoom.handleSend. rewrite Hne.
  unfold try_catch, bind. rewrite await_alone.
  cbn [ChatRoom.inputText ChatRoom.setSending].
  pose proof (stored_after_send (ChatRoom.roomId props)
                (ChatRoom.username props) (trim (ChatRoom.inputText st))
                env w) as Hstored.
  destruct (after_read_fields w) as (_ & Hdev & _ & _ & Ha & _).
  destruct (sendMessage_cases (ChatRoom.roomId props)
              (ChatRoom.username props) (trim (ChatRoom.inputText st)) env w)
    as [[Hres H]|[H|(rooms & hp & H & _)]]; rewrite H in *;
    cbn [fst snd ret] in *.
  - split; [now left|]. split; [left; exact Ha|].
    intros Hd. split.
    + destruct Hstored as [E|(room & Hw & _)]; [exact E|congruence].
    + congruence.
  - split; [now right|]. split; [left; exact Ha|].
    intros Hd. split.
    + destruct Hstored as [E|(room & Hw & _)]; [exact E|congruence].
    + discriminate.
  - split; [now left|].
    rewrite alerts_after_save. cbn [device alerts set_heap].
    rewrite Hdev, Ha. split.
    + destruct (device w); auto.
    + intros Hd. split.
      * destruct Hstored as [E|(room & Hw & _)]; [exact E|congruence].
      * intros _ _. destruct (device w); congruence.
Qed.

End ChatRoomFacts.

Lemma handleSend_sends_trimmed_text_witness :
  let props := ChatRoom.mkProps "123456" "Alice" in
  let env := mkSendEnv 1724000000000 1724000000000 [10; 11]%N in
  let w := boot (Some (Document [("123456", mkRoom 5 (Some []))])) Working in
  ChatRoom.handleSend (fun s => s) props (ChatRoom.mkState "" false) []
    env w
  = (Returned (ChatRoom.mkState "" false), w) /\
  fst (ChatRoom.handleSend (fun s => s) props
         (ChatRoom.mkState "hi" false) [] env w)
  = Returned (ChatRoom.mkState "" false).
Proof.
  cbv zeta. split.
  - exact (proj1 (handleSend_sends_trimmed_text (fun s => s)
                    (ChatRoom.mkProps "123456" "Alice")
                    (ChatRoom.mkState "" false)
                    (mkSendEnv 1724000000000 1724000000000 [10; 11]%N)
                    (boot (Some (Document [("123456", mkRoom 5 (Some []))]))
                       Working)
                    (mkRoom 5 (Some []))) eq_refl).
  - exact (proj1 (proj2 (handleSend_sends_trimmed_text (fun s => s)
                           (ChatRoom.mkProps "123456" "Alice")
                           (ChatRoom.mkState "hi" false)
                           (mkSendEnv 1724000000000 1724000000000 [10; 11]%N)
                           (boot (Some (Document
                                          [("123456", mkRoom 5 (Some []))]))
                              Working)
                           (mkRoom 5 (Some [])))
                   eq_refl eq_refl eq_refl ltac:(discriminate))).
Defined.

Lemma handleSend_clears_input_on_refused_write_witness :
  let props := ChatRoom.mkProps "123456" "Alice" in
  let env := mkSendEnv 1724000000000 1724000000000 [10; 11]%N in
  let w := boot (Some (Document [("123456", mkRoom 5 (Some []))]))
             QuotaFull in
  let result := ChatRoom.handleSend (fun s => s) props
                  (ChatRoom.mkState "hi" false) [] env w in
  stored_rooms (snd result) = stored_rooms w /\
  alerts (snd result) = [SAVE_ALERT].
Proof.
  cbv zeta.
  destruct (handleSend_clears_input_on_refused_write (fun s => s)
              (ChatRoom.mkProps "123456" "Alice")
              (ChatRoom.mkState "hi" false)
              (mkSendEnv 1724000000000 1724000000000 [10; 11]%N)
              (boot (Some (Document [("123456", mkRoom 5 (Some []))]))
                 QuotaFull)
              eq_refl) as (_ & _ & H).
  destruct (H ltac:(discriminate)) as [H1 H2].
  split; [exact H1|]. apply H2; reflexivity.
Defined.
